(** * YARP wire codec: a shallow embedding of the decoder and of the
      scalar encoder, with the properties checked against the specification.

    The development follows the Go sources file by file:
    - [scalar.go]  : [encodeInteger], [encodeInt], [encodeUint], [encodeBool],
                     [decodeScalar];
    - [float.go]   : [decodeFloat];
    - [array.go], [map.go], [oneof.go], [struct.go] : the container decoders;
    - the type table ([detectType], [sizeLimit]), the registry, [decodeString]
      and the top-level [Decode].

    Conventions.  A byte is a [Z] in [0, 256); a [uint64] is a [Z] in
    [0, 2^64) and every Go operation that can leave that range is followed by
    an explicit reduction ([u64], [u8]).  An [io.Reader] is modelled by the
    bytes still unread in the underlying [bytes.Reader] together with the
    remaining budgets of the [io.LimitedReader]s wrapped around it. *)

From Stdlib Require Import ZArith List Lia Bool Ascii String.
From stdpp Require Import base gmap strings list.

Local Open Scope Z_scope.

(** ** Machine integers *)

Definition u64 (z : Z) : Z := z mod 2 ^ 64.
Definition u8 (z : Z) : Z := z mod 2 ^ 8.

(** [int64(x)] for a [uint64] [x]: two's complement reinterpretation. *)
Definition int64_of_u64 (z : Z) : Z :=
  if z <? 2 ^ 63 then z else z - 2 ^ 64.

(** [uint64(x)] for an [int64] [x]. *)
Definition u64_of_int64 (z : Z) : Z := z mod 2 ^ 64.

(** ** scalar.go: the encoder *)

Definition maxLen : nat := 16.

(** The [for (value << 1) > 0x7 { ... }] loop of [encodeInteger].  [data] is
    the 16-byte scratch array, [pos] the write position.  The loop body runs
    at most ten times on a 64-bit value ([encodeLoop_exit] below), so the
    sixteen iterations allowed here are never exhausted. *)
Fixpoint encodeLoop (n : nat) (value : Z) (pos : nat) (data : list Z)
  : Z * nat * list Z :=
  match n with
  | O => (value, pos, data)
  | S n' =>
      if 0x7 <? u64 (value ≪ 1) then
        let data := <[pos := u8 (u8 (Z.land value 0x7F) ≪ 1)]> data in
        let data :=
          if negb (Nat.eqb pos (maxLen - 1))
          then <[pos := Z.lor (data !!! pos) 0x1]> data
          else data in
        encodeLoop n' (value ≫ 7) (pos - 1)%nat data
      else (value, pos, data)
  end.

Definition encodeInteger (value : Z) : list Z :=
  let '(value, pos, data) :=
    encodeLoop maxLen value (maxLen - 1)%nat (replicate maxLen 0) in
  let data := <[pos := Z.land (u8 (u64 (value ≪ 1))) 0x7]> data in
  let data :=
    if (pos <? maxLen - 1)%nat
    then <[pos := Z.lor (data !!! pos) 0x1]> data
    else data in
  drop pos data.

(** [data[0] = data[0] | m] on the slice returned by [encodeInteger]. *)
Definition orHead (m : Z) (data : list Z) : list Z :=
  match data with
  | [] => []
  | b :: bs => Z.lor b m :: bs
  end.

Definition encodeInt (value : Z) : list Z :=
  orHead 0x30 (encodeInteger (u64_of_int64 value)).

Definition encodeUint (value : Z) : list Z :=
  orHead 0x20 (encodeInteger value).

Definition encodeBool (value : bool) : list Z :=
  if value then [0x30] else [0x20].

(** ** Readers *)

(** The state of a reader: [buf] is what the innermost [bytes.Reader] still
    holds, [lims] the counters [N] of the [io.LimitedReader]s stacked on it,
    the reader handed to the current function first. *)
Record Reader := mkReader { lims : list Z; buf : list Z }.

Definition bytesReader (b : list Z) : Reader := mkReader [] b.

(** [io.LimitReader(r, n)]. *)
Definition LimitReader (r : Reader) (n : Z) : Reader :=
  mkReader (n :: lims r) (buf r).

(** Leaving the scope of the innermost [LimitReader]: the caller's reader. *)
Definition unlimit (r : Reader) : Reader :=
  mkReader (tail (lims r)) (buf r).

(** A [LimitedReader] answers [io.EOF] as soon as its [N <= 0]. *)
Definition exhausted (ls : list Z) : bool :=
  existsb (fun n => n <=? 0) ls.

(** [r.Read(b)] with a one-byte [b]: [None] is [(0, io.EOF)], otherwise the
    byte read and the reader afterwards (every enclosing counter has been
    decremented). *)
Definition readByte (r : Reader) : option (Z * Reader) :=
  if exhausted (lims r) then None
  else match buf r with
       | [] => None
       | b :: bs => Some (b, mkReader (Z.pred <$> lims r) bs)
       end.


(** [io.ReadFull(r, b)] with [len(b) = n]: the bytes obtained, and the reader
    afterwards.  [ReadFull] keeps calling [Read] until [n] bytes have arrived
    or a call fails, which through limited readers over a [bytes.Reader]
    takes exactly the bytes that [n] successive one-byte reads take. *)
Fixpoint readUpTo (n : nat) (ls bs : list Z) : list Z * Reader :=
  match n with
  | O => ([], mkReader ls bs)
  | S n' =>
      if exhausted ls then ([], mkReader ls bs)
      else match bs with
           | [] => ([], mkReader ls bs)
           | b :: bs' =>
               let '(got, r') := readUpTo n' (Z.pred <$> ls) bs' in
               (b :: got, r')
           end
  end.

(** [io.ReadAll(r)]: everything up to the first [io.EOF]. *)
Fixpoint readRest (ls bs : list Z) : list Z * Reader :=
  if exhausted ls then ([], mkReader ls bs)
  else match bs with
       | [] => ([], mkReader ls bs)
       | b :: bs' =>
           let '(got, r') := readRest (Z.pred <$> ls) bs' in
           (b :: got, r')
       end.

(** ** The type table *)

(** The Go type [Type] and its constants. *)
Module Ty.
Inductive t :=
| Invalid | Void | Scalar | Float | Array | Struct | String | Map | OneOf.

#[global] Instance eq_dec : EqDecision t.
Proof. solve_decision. Defined.
End Ty.

Definition sizeLimit : Z := 2000000000.

Definition detectTypeTable : gmap Z Ty.t :=
  list_to_map
    [(0x0, Ty.Void); (0x1, Ty.Scalar); (0x2, Ty.Float); (0x3, Ty.Array);
     (0x4, Ty.Struct); (0x5, Ty.String); (0x6, Ty.Map); (0x7, Ty.OneOf)].

Definition detectType (b : Z) : Ty.t :=
  match detectTypeTable !! (b ≫ 5) with
  | Some v => v
  | None => Ty.Invalid
  end.

(** ** Errors *)

(** What a recovered panic was about. *)
Inductive Fault :=
| IndexOutOfRange        (* runtime: index out of range *)
| SliceBoundsOutOfRange  (* runtime: slice bounds out of range *)
| NilDereference         (* runtime: nil pointer dereference *)
| ReflectZeroValue       (* reflect: call of a method on the zero Value *)
| ReflectNotAssignable   (* reflect.Set: value not assignable *)
| ReflectWrongKind.      (* reflect: call of a method on the wrong Kind *)

(** The error values of [error.go], the two [io] errors the decoder lets
    through, the errors built in place with [fmt.Errorf], and the error that
    the deferred function of [Decode] makes out of a panic. *)
Inductive Error :=
| EOF                        (* io.EOF *)
| ErrUnexpectedEOF           (* io.ErrUnexpectedEOF *)
| ErrNonHomogeneousArray
| ErrSizeTooLarge
| ErrInvalidType
| ErrIncompatibleStruct
| ErrIncompleteStruct
| ErrInvalidTag
| ErrDuplicatedFieldIndex
| ErrMinFieldNotZero
| ErrFieldGap
| ErrUnknownStructType
| ErrCorruptStream
| ErrWantsStreamed
| ErrServerClosed
| ErrOneOfNotPointer         (* "expected OneOf fields to use a pointer" *)
| ErrNonHomogeneousMapKey    (* "non-homogeneous map key type" *)
| ErrNonHomogeneousMapValue  (* "non-homogeneous map value type" *)
| ErrUnevenMap               (* "uneven map values" *)
| ErrRecovered (f : Fault).  (* set by the deferred recover() *)

#[global] Instance Fault_eq_dec : EqDecision Fault.
Proof. solve_decision. Defined.
#[global] Instance Error_eq_dec : EqDecision Error.
Proof. solve_decision. Defined.

(** A Go result [(a, err)], or a panic unwinding, or the evaluation budget of
    the model running out. *)
Inductive Res (A : Type) :=
| Ret (a : A) (err : option Error)
| Panic (f : Fault)
| OutOfFuel.
Arguments Ret {A} a err.
Arguments Panic {A} f.
Arguments OutOfFuel {A}.

(** Computations that read: state passing over the reader. *)
Definition M (A : Type) : Type := Reader -> Res A * Reader.

Definition ret {A} (a : A) (err : option Error) : M A :=
  fun r => (Ret a err, r).

Definition bind {A B} (m : M A) (k : A -> option Error -> M B) : M B :=
  fun r =>
    match m r with
    | (Ret a err, r') => k a err r'
    | (Panic f, r') => (Panic f, r')
    | (OutOfFuel, r') => (OutOfFuel, r')
    end.

Notation "'let*' ( a , e ) := m 'in' k" :=
  (bind m (fun a e => k))
  (at level 10, a pattern, e name, m at level 100, k at level 200).

(** [r.Read(b)] for a one-byte [b], as a computation: the byte and [nil], or
    an unspecified byte and [io.EOF]. *)
Definition Read1 : M Z :=
  fun r =>
    match readByte r with
    | Some (b, r') => (Ret b None, r')
    | None => (Ret 0 (Some EOF), r)
    end.

(** [io.ReadFull(r, b)] with [len(b) = n > 0]. *)
Definition ReadFull (n : nat) : M (list Z) :=
  fun r =>
    let '(got, r') := readUpTo n (lims r) (buf r) in
    if (length got =? n)%nat then (Ret got None, r')
    else if (length got =? 0)%nat then (Ret got (Some EOF), r')
    else (Ret got (Some ErrUnexpectedEOF), r').

(** [io.ReadAll(r)]; it never fails on these readers. *)
Definition ReadAll : M (list Z) :=
  fun r => let '(got, r') := readRest (lims r) (buf r) in (Ret got None, r').

(** [m] run on [io.LimitReader(r, n)]; afterwards the caller holds [r] again,
    advanced by what was read through the limited reader. *)
Definition within {A} (n : Z) (m : M A) : M A :=
  fun r => let '(res, r') := m (LimitReader r n) in (res, unlimit r').

(** ** scalar.go: the decoder *)

(** The [for { ... }] loop of [decodeScalar], entered with the accumulator
    [value]; [ls] and [bs] are the two components of the reader.  Each round
    is one [reader.Read(b)], see [scalarLoop_step]. *)
Fixpoint scalarLoop (value : Z) (ls bs : list Z) : Res Z * Reader :=
  let value := u64 (value ≪ 7) in
  if exhausted ls then (Ret value (Some EOF), mkReader ls bs)
  else match bs with
       | [] => (Ret value (Some EOF), mkReader ls bs)
       | b :: bs' =>
           let value := Z.lor value (b ≫ 1) in
           if negb (Z.land b 0x01 =? 0x01)
           then (Ret value None, mkReader (Z.pred <$> ls) bs')
           else scalarLoop value (Z.pred <$> ls) bs'
       end.

(** Returns [(signed, value)] and [err]. *)
Definition decodeScalar (header : Z) : M (bool * Z) :=
  let value := Z.land header 0xE ≫ 1 in
  let signed := Z.land header 0x10 =? 0x10 in
  if negb (Z.land header 0x1 =? 0x1) then ret (signed, value) None
  else fun r =>
         match scalarLoop value (lims r) (buf r) with
         | (Ret value err, r') => (Ret (signed, value) err, r')
         | (Panic f, r') => (Panic f, r')
         | (OutOfFuel, r') => (OutOfFuel, r')
         end.

(** ** float.go: the decoder *)

(** [binary.LittleEndian.Uint32] and [Uint64]. *)
Definition littleEndian (bs : list Z) : Z :=
  foldr (fun b acc => b + 256 * acc) 0 bs.

(** Returns [(bits, value)] and [err].  A float is represented by its
    IEEE-754 bit pattern: [value] is the pattern of the 32-bit or of the
    64-bit number read, [0] being the pattern of the zero that the one-byte
    form stands for. *)
Definition decodeFloat (header : Z) : M (Z * Z) :=
  let bits := if Z.land header 0x10 =? 0x10 then 64 else 32 in
  let isZero := Z.land header 0x8 =? 0x8 in
  if isZero then ret (bits, 0) None
  else
    let* (buffer, err) := ReadFull (Z.to_nat (bits / 8)) in
    match err with
    | Some e => ret (bits, 0) (Some e)
    | None => ret (bits, littleEndian buffer) None
    end.

(** ** The string decoder *)

(** What [decodeString] does once the size has passed the guard. *)
Definition decodeStringBody (size : Z) : M (list Z) :=
  let* (data, err) := within (int64_of_u64 size) ReadAll in
  match err with
  | Some e => ret [] (Some e)
  | None => ret data None
  end.

Definition decodeString (header : Z) : M (list Z) :=
  let* (sv, err) := decodeScalar header in
  let size := sv.2 in
  match err with
  | Some _ => ret [] None
  | None =>
      if sizeLimit <=? size then ret [] (Some ErrSizeTooLarge)
      else decodeStringBody size
  end.

(** ** Go types and decoded values *)

(** The fragment of Go's types that the decoder meets: the types of the values
    it builds and the types a registered struct may give its fields.  A named
    struct type is identified by its name; distinct names are taken to be
    types that do not convert into each other. *)
Inductive GoType :=
| TBool
| TInt | TInt8 | TInt16 | TInt32 | TInt64
| TUint | TUint8 | TUint16 | TUint32 | TUint64
| TFloat32 | TFloat64
| TString
| TInterface                       (* interface{} *)
| TSlice (elem : GoType)
| TPointer (elem : GoType)
| TMap (key elem : GoType)
| TStruct (name : string).

#[global] Instance GoType_eq_dec : EqDecision GoType.
Proof. solve_decision. Defined.

Record UnknownFieldOf (V : Type) := mkUnknownField
  { uIndex : Z; uType : Ty.t; uData : V }.
Arguments mkUnknownField {V}.
Arguments uIndex {V}.
Arguments uType {V}.
Arguments uData {V}.

(** A value behind an [interface{}] or a [reflect.Value].

    - [VSlice e l] is a slice of type [[]e]; the decoder only returns the nil
      slice or a slice it has appended to, so [l = []] is the nil slice.
    - [VPointer e None] is the nil pointer of type [*e].
    - [VStruct name fields] is a value of the registered struct [name];
      [fields] holds what has been stored into it since [reflect.New], a
      field that is absent still has its zero value.
    - [VConvert v t] is [reflect.ValueOf(v).Convert(t)], kept symbolic. *)
#[warnings="-register-all"]
Inductive Value :=
| VNil
| VUint64 (n : Z)
| VInt64 (n : Z)
| VFloat32 (pattern : Z)
| VFloat64 (pattern : Z)
| VBool (b : bool)
| VString (s : list Z)
| VSlice (elem : GoType) (l : list Value)
| VPointer (elem : GoType) (target : option Value)
| VMapValue (Keys Values : list Value)
| VOneOfValue (Index : Z) (Data : Value)
| VStructure (UnknownFields : list (UnknownFieldOf Value))
| VEncodedStruct (id : Z) (values : list Value) (types : list Ty.t)
| VStruct (name : string) (fields : gmap string Value)
| VConvert (v : Value) (t : GoType)
| VMap (t : GoType) (entries : list (Value * Value)).

Abbreviation UnknownField := (UnknownFieldOf Value).

Definition TMapValue : GoType := TStruct "MapValue".
Definition TOneOfValue : GoType := TStruct "OneOfValue".
Definition TStructure : GoType := TStruct "Structure".
Definition TEncodedStruct : GoType := TStruct "encodedStruct".

(** [reflect.TypeOf(v)]; [None] for the nil interface. *)
Definition typeOf (v : Value) : option GoType :=
  match v with
  | VNil => None
  | VUint64 _ => Some TUint64
  | VInt64 _ => Some TInt64
  | VFloat32 _ => Some TFloat32
  | VFloat64 _ => Some TFloat64
  | VBool _ => Some TBool
  | VString _ => Some TString
  | VSlice e _ => Some (TSlice e)
  | VPointer e _ => Some (TPointer e)
  | VMapValue _ _ => Some TMapValue
  | VOneOfValue _ _ => Some TOneOfValue
  | VStructure _ => Some TStructure
  | VEncodedStruct _ _ _ => Some TEncodedStruct
  | VStruct name _ => Some (TStruct name)
  | VConvert _ t => Some t
  | VMap t _ => Some t
  end.

(** [MapValue], [OneOfValue] and [encodedStruct] as the decoders return them,
    behind a pointer that may be nil. *)
Record MapValue := mkMapValue { Keys : list Value; Values : list Value }.
Record OneOfValue := mkOneOfValue { Index : Z; Data : Value }.
Record encodedStruct := mkEncodedStruct
  { id : Z; values : list Value; types : list Ty.t }.

Definition ofMapValue (m : option MapValue) : Value :=
  VPointer TMapValue ((fun m => VMapValue (Keys m) (Values m)) <$> m).
Definition ofOneOfValue (o : option OneOfValue) : Value :=
  VPointer TOneOfValue ((fun o => VOneOfValue (Index o) (Data o)) <$> o).
Definition ofEncodedStruct (s : option encodedStruct) : Value :=
  VPointer TEncodedStruct
    ((fun s => VEncodedStruct (id s) (values s) (types s)) <$> s).

(** ** The container decoders

    [array.go], [map.go], [oneof.go] and [decodeStruct] of [struct.go] call
    back into [Decode] for the values they contain.  They are written here
    over the [Decode] they call, and [loops] bounds the number of rounds of
    their [for] loops; the knot is tied in [Decode] below. *)

Section Containers.

Variable Decode : M (Ty.t * Value).
Variable loops : nat.

(** *** array.go *)

(** [v = reflect.ValueOf(v).Elem().Interface()] *)
Definition elemInterface (v : Value) : M Value :=
  match v with
  | VPointer _ (Some x) => ret x None
  | VPointer _ None => fun r => (Panic ReflectZeroValue, r)
  | VNil => fun r => (Panic ReflectZeroValue, r)
  | _ => fun r => (Panic ReflectWrongKind, r)
  end.

(** The [for] loop of [decodeArray]; [data] is the slice so far. *)
Fixpoint arrayLoop (n : nat) (data : list Value) : M (list Value) :=
  match n with
  | O => fun r => (OutOfFuel, r)
  | S n' =>
      let* (tv, err) := Decode in
      match err with
      | Some e =>
          if decide (e = EOF) then ret data None else ret [] (Some e)
      | None =>
          let* (v, _) :=
            (if decide (tv.1 = Ty.Struct) then elemInterface tv.2
             else ret tv.2 None) in
          arrayLoop n' (data ++ [v])
      end
  end.

(** What [decodeArray] does once the size has passed the guard. *)
Definition decodeArrayBody (size : Z) : M (list Value) :=
  within (int64_of_u64 size) (arrayLoop loops []).

Definition decodeArray (header : Z) : M (list Value) :=
  let* (sv, err) := decodeScalar header in
  let size := sv.2 in
  match err with
  | Some e => ret [] (Some e)
  | None =>
      if size =? 0 then ret [] None
      else if sizeLimit <=? size then ret [] (Some ErrSizeTooLarge)
      else decodeArrayBody size
  end.

(** *** map.go *)

(** [reader.Read(b)] on [reader := io.LimitReader(r, N)] when [r] itself
    stays in use next to it: the counter [N] is a local of [decodeMap],
    returned with the byte. *)
Definition ReadLimited (N : Z) : M (Z * Z) :=
  if N <=? 0 then ret (0, N) (Some EOF)
  else
    let* (b, err) := Read1 in
    match err with
    | Some e => ret (0, N) (Some e)
    | None => ret (b, N - 1) None
    end.

(** The two [for] loops of [decodeMap], one over [keyReader] and one over
    [valReader]; they differ in the error for a change of type, [mixed].
    [keyType] is the type of the first element, [acc] what has been
    appended to [mapVal.Keys] (or [mapVal.Values]). *)
Fixpoint mapLoop (mixed : Error) (n : nat) (keyType : Ty.t)
    (acc : list Value) : M (list Value) :=
  match n with
  | O => fun r => (OutOfFuel, r)
  | S n' =>
      let* (tv, err) := Decode in
      match err with
      | Some e =>
          if decide (e = EOF) then ret acc None else ret [] (Some e)
      | None =>
          if decide (keyType = Ty.Invalid)
          then mapLoop mixed n' tv.1 (acc ++ [tv.2])
          else if decide (keyType ≠ tv.1) then ret [] (Some mixed)
          else mapLoop mixed n' keyType (acc ++ [tv.2])
      end
  end.

(** The keys and the values as the two loops leave them, before the
    comparison of their lengths.  On an error the lists are empty. *)
Definition decodeMapBlocks (size : Z) : M (list Value * list Value) :=
  let* (bN, err) := ReadLimited (int64_of_u64 size) in
  match err with
  | Some e => ret ([], []) (Some e)
  | None =>
  let* (kv, err) := decodeScalar bN.1 in
  let keyLen := kv.2 in
  match err with
  | Some e => ret ([], []) (Some e)
  | None =>
  let* (keys, err) :=
    within (int64_of_u64 keyLen)
      (mapLoop ErrNonHomogeneousMapKey loops Ty.Invalid []) in
  match err with
  | Some e => ret ([], []) (Some e)
  | None =>
  let* (bN', err) := ReadLimited bN.2 in
  match err with
  | Some e => ret ([], []) (Some e)
  | None =>
  let* (vv, err) := decodeScalar bN'.1 in
  let valLen := vv.2 in
  match err with
  | Some e => ret ([], []) (Some e)
  | None =>
  let* (vals, err) :=
    within (int64_of_u64 valLen)
      (mapLoop ErrNonHomogeneousMapValue loops Ty.Invalid []) in
  match err with
  | Some e => ret ([], []) (Some e)
  | None => ret (keys, vals) None
  end end end end end end.

(** What [decodeMap] does once the size has passed the guard. *)
Definition decodeMapBody (size : Z) : M (option MapValue) :=
  let* (kv, err) := decodeMapBlocks size in
  match err with
  | Some e => ret None (Some e)
  | None =>
      if negb (length kv.1 =? length kv.2)%nat
      then ret None (Some ErrUnevenMap)
      else ret (Some (mkMapValue kv.1 kv.2)) None
  end.

Definition decodeMap (header : Z) : M (option MapValue) :=
  let* (sv, err) := decodeScalar header in
  let size := sv.2 in
  match err with
  | Some e => ret None (Some e)
  | None =>
      if size =? 0 then ret None None
      else if sizeLimit <=? size then ret None (Some ErrSizeTooLarge)
      else decodeMapBody size
  end.

(** *** oneof.go *)

(** What [decodeOneOf] does once the size has passed the guard: everything
    is read through [reader]. *)
Definition decodeOneOfBody (size : Z) : M (option OneOfValue) :=
  within (int64_of_u64 size)
    (let* (h, err) := ReadFull 1 in
     match err with
     | Some e => ret None (Some e)
     | None =>
     let* (iv, err) := decodeScalar (default 0 (head h)) in
     let idx := iv.2 in
     match err with
     | Some e => ret None (Some e)
     | None =>
     let* (tv, err) := Decode in
     let val := tv.2 in
     match err with
     | Some e => ret None (Some e)
     | None => ret (Some (mkOneOfValue (int64_of_u64 idx) val)) None
     end end end).

Definition decodeOneOf (header : Z) : M (option OneOfValue) :=
  let* (sv, err) := decodeScalar header in
  let size := sv.2 in
  match err with
  | Some e => ret None (Some e)
  | None =>
      if size =? 0 then ret None None
      else if sizeLimit <=? size then ret None (Some ErrSizeTooLarge)
      else decodeOneOfBody size
  end.

(** *** struct.go: [decodeStruct] *)

(** The [for] loop of [decodeStruct], appending to [str.values] and
    [str.types]. *)
Fixpoint structLoop (n : nat) (str : encodedStruct) : M (option encodedStruct) :=
  match n with
  | O => fun r => (OutOfFuel, r)
  | S n' =>
      let* (tv, err) := Decode in
      match err with
      | Some e =>
          if decide (e = EOF) then ret (Some str) None else ret None (Some e)
      | None =>
          structLoop n'
            (mkEncodedStruct (id str) (values str ++ [tv.2])
               (types str ++ [tv.1]))
      end
  end.

(** What [decodeStruct] does once the size has passed the guard. *)
Definition decodeStructBody (size : Z) : M (option encodedStruct) :=
  within (int64_of_u64 size)
    (let* (idb, err) := ReadFull 8 in
     match err with
     | Some e => ret None (Some e)
     | None => structLoop loops (mkEncodedStruct (littleEndian idb) [] [])
     end).

Definition decodeStruct (header : Z) : M (option encodedStruct) :=
  let* (sv, err) := decodeScalar header in
  let size := sv.2 in
  match err with
  | Some e => ret None (Some e)
  | None =>
      if sizeLimit <=? size then ret None (Some ErrSizeTooLarge)
      else decodeStructBody size
  end.

End Containers.

(** ** What the decoder uses of package reflect *)

Inductive Kind :=
| KBool
| KInt | KInt8 | KInt16 | KInt32 | KInt64
| KUint | KUint8 | KUint16 | KUint32 | KUint64
| KFloat32 | KFloat64
| KString | KInterface | KSlice | KPointer | KMap | KStruct.

#[global] Instance Kind_eq_dec : EqDecision Kind.
Proof. solve_decision. Defined.

(** [t.Kind()] *)
Definition kindOf (t : GoType) : Kind :=
  match t with
  | TBool => KBool
  | TInt => KInt | TInt8 => KInt8 | TInt16 => KInt16
  | TInt32 => KInt32 | TInt64 => KInt64
  | TUint => KUint | TUint8 => KUint8 | TUint16 => KUint16
  | TUint32 => KUint32 | TUint64 => KUint64
  | TFloat32 => KFloat32 | TFloat64 => KFloat64
  | TString => KString
  | TInterface => KInterface
  | TSlice _ => KSlice
  | TPointer _ => KPointer
  | TMap _ _ => KMap
  | TStruct _ => KStruct
  end.

Definition isInteger (k : Kind) : bool :=
  match k with
  | KInt | KInt8 | KInt16 | KInt32 | KInt64
  | KUint | KUint8 | KUint16 | KUint32 | KUint64 => true
  | _ => false
  end.

Definition isFloat (k : Kind) : bool :=
  match k with
  | KFloat32 | KFloat64 => true
  | _ => false
  end.

(** [t.Elem()] of a pointer or slice type. *)
Definition elemOf (t : GoType) : option GoType :=
  match t with
  | TSlice e | TPointer e | TMap _ e => Some e
  | _ => None
  end.

(** [src.ConvertibleTo(dst)], after the conversion table of package reflect:
    integers convert to integers, floats and strings; floats to integers and
    floats; strings to and from byte and rune slices; a type converts to a
    type with the same underlying type, here to itself; everything converts
    to the empty interface. *)
Definition convertibleTo (src dst : GoType) : bool :=
  (isInteger (kindOf src)
   && (isInteger (kindOf dst) || isFloat (kindOf dst)
       || bool_decide (kindOf dst = KString)))
  || (isFloat (kindOf src)
      && (isInteger (kindOf dst) || isFloat (kindOf dst)))
  || (bool_decide (src = TString)
      && (bool_decide (dst = TSlice TUint8)
          || bool_decide (dst = TSlice TInt32)))
  || ((bool_decide (src = TSlice TUint8) || bool_decide (src = TSlice TInt32))
      && bool_decide (dst = TString))
  || bool_decide (src = dst)
  || bool_decide (dst = TInterface).

(** Whether [Value.Set] accepts a value of type [src] for a slot of type
    [dst]. *)
Definition assignableTo (src dst : GoType) : bool :=
  bool_decide (src = dst) || bool_decide (dst = TInterface).

(** A [reflect.StructField]: its name, its type, and what
    [f.Tag.Lookup("index")] finds. *)
Record StructField := mkStructField
  { Name : string; Type_ : GoType; Tag : option string }.

(** The [reflect.Type] of a struct: whether it implements [StructValuer],
    and its fields in the order of declaration. *)
Record StructType := mkStructType
  { TypeName : string; ImplementsValuer : bool; Fields : list StructField }.

(** [t.FieldByName(name)], among the fields that [t] declares itself. *)
Definition FieldByName (t : StructType) (name : string) : option StructField :=
  List.find (fun f => bool_decide (Name f = name)) (Fields t).

Module structField.
Record t := mk
  { Index : Z;
    OneOf : bool;
    Field : StructField;
    OneOfIndexes : gmap Z StructField }.
End structField.

(** ** strconv and strings *)

Fixpoint digits (s : string) (acc : Z) : option Z :=
  match s with
  | EmptyString => Some acc
  | String c s' =>
      let n := Z.of_N (Ascii.N_of_ascii c) in
      if (48 <=? n) && (n <=? 57) then digits s' (10 * acc + (n - 48))
      else None
  end.

(** [strconv.Atoi]: an optional sign, then decimal digits, within [int]. *)
Definition Atoi (s : string) : option Z :=
  let '(neg, body) :=
    match s with
    | String "-"%char s' => (true, s')
    | String "+"%char s' => (false, s')
    | _ => (false, s)
    end in
  match body with
  | EmptyString => None
  | _ =>
      match digits body 0 with
      | Some n =>
          let v := if neg then - n else n in
          if (- 2 ^ 63 <=? v) && (v <? 2 ^ 63) then Some v else None
      | None => None
      end
  end.

(** [strings.Split(s, ",")], the piece being read in [cur]. *)
Fixpoint splitComma (s cur : string) : list string :=
  match s with
  | EmptyString => [cur]
  | String c s' =>
      if Ascii.eqb c ","%char then cur :: splitComma s' EmptyString
      else splitComma s' (cur ++ String c EmptyString)%string
  end.

Definition ContainsComma (s : string) : bool :=
  (1 <? length (splitComma s EmptyString))%nat.

(** ** struct.go: the field plan *)

(** One round of the loop over the fields of [t] in
    [validateAndExtractStruct]; the state is [(fields, minField, maxField)]. *)
Definition validateField (f : StructField)
    (st : gmap Z structField.t * Z * Z)
  : Error + gmap Z structField.t * Z * Z :=
  let '(fields, minField, maxField) := st in
  match Tag f with
  | None => inr st
  | Some tag =>
      let comma := ContainsComma tag in
      let components := splitComma tag EmptyString in
      let oneOfIndex :=
        if comma then default EmptyString (components !! 1%nat)
        else EmptyString in
      let tag :=
        if comma then default EmptyString (components !! 0%nat) else tag in
      if comma && negb (bool_decide (kindOf (Type_ f) = KPointer))
      then inl ErrOneOfNotPointer
      else
        match Atoi tag with
        | None => inl ErrInvalidTag
        | Some i =>
            let ef := fields !! i in
            if match ef with
               | Some ef =>
                   bool_decide (oneOfIndex = EmptyString)
                   || negb (structField.OneOf ef)
               | None => false
               end
            then inl ErrDuplicatedFieldIndex
            else
              let minField := if i <? minField then i else minField in
              let maxField := if maxField <? i then i else maxField in
              match ef with
              | Some ef =>
                  match Atoi oneOfIndex with
                  | None => inl ErrInvalidTag
                  | Some ooIndex =>
                      let ef :=
                        structField.mk (structField.Index ef)
                          (structField.OneOf ef) (structField.Field ef)
                          (<[ooIndex := f]> (structField.OneOfIndexes ef)) in
                      inr (<[i := ef]> fields, minField, maxField)
                  end
              | None =>
                  if negb (bool_decide (oneOfIndex = EmptyString)) then
                    match Atoi oneOfIndex with
                    | None => inl ErrInvalidTag
                    | Some ooIndex =>
                        inr (<[i := structField.mk i true f {[ooIndex := f]}]>
                               fields, minField, maxField)
                    end
                  else
                    inr (<[i := structField.mk i false f ∅]> fields,
                         minField, maxField)
              end
        end
  end.

Fixpoint validateFields (fs : list StructField)
    (st : gmap Z structField.t * Z * Z)
  : Error + gmap Z structField.t * Z * Z :=
  match fs with
  | [] => inr st
  | f :: fs' =>
      match validateField f st with
      | inl e => inl e
      | inr st' => validateFields fs' st'
      end
  end.

(** Returns the plan, one [structField] for each index from 0 up, or the
    error. *)
Definition validateAndExtractStruct (t : StructType)
  : Error + list structField.t :=
  if negb (ImplementsValuer t) then inl ErrIncompatibleStruct
  else
    match FieldByName t "Structure" with
    | None => inl ErrIncompleteStruct
    | Some _ =>
        match validateFields (Fields t) (∅, 10000, -1) with
        | inl e => inl e
        | inr (fields, minField, maxField) =>
            if negb (minField =? 0) then inl ErrMinFieldNotZero
            else
              match mapM (fun i => fields !! i) (seqZ 0 (maxField + 1)) with
              | None => inl ErrFieldGap
              | Some allFields => inr allFields
              end
        end
    end.

(** ** struct.go: binding decoded values to fields *)

(** The result of code that may panic but does not read. *)
Inductive Try (A : Type) :=
| Done (a : A)
| Raise (f : Fault).
Arguments Done {A} a.
Arguments Raise {A} f.

(** The struct being filled, [setInst]: the fields stored so far. *)
Abbreviation Inst := (gmap string Value).

(** [into.FieldByIndex(fd.Index).Set(v)] *)
Definition setField (into : Inst) (fd : StructField) (v : Value) : Inst :=
  <[Name fd := v]> into.

(** Whether the type of every element of [l] converts to [t], in order; the
    nil interface among them is the panic [nilFault]. *)
Fixpoint allConvertible (nilFault : Fault) (l : list Value) (t : GoType)
  : Try bool :=
  match l with
  | [] => Done true
  | v :: l' =>
      match typeOf v with
      | None => Raise nilFault
      | Some vt =>
          if convertibleTo vt t then allConvertible nilFault l' t
          else Done false
      end
  end.

(** The last loop of [makeMap]: [SetMapIndex] of every converted key with the
    converted [v.Values[i]].  The map is kept as the sequence of these
    stores. *)
Fixpoint mapEntries (keys vals : list Value) (i : nat) (kt vt : GoType)
  : Try (list (Value * Value)) :=
  match keys with
  | [] => Done []
  | rk :: keys' =>
      match vals !! i with
      | None => Raise IndexOutOfRange
      | Some v =>
          match mapEntries keys' vals (S i) kt vt with
          | Raise f => Raise f
          | Done es => Done ((VConvert rk kt, VConvert v vt) :: es)
          end
      end
  end.

Definition makeMap (v : option MapValue) (mapType : GoType)
  : Try (bool * Value) :=
  match mapType with
  | TMap mapKeyType mapValueType =>
      match v with
      | Some v =>
          match allConvertible NilDereference (Keys v) mapKeyType with
          | Raise f => Raise f
          | Done false => Done (false, VNil)
          | Done true =>
          match allConvertible NilDereference (Values v) mapValueType with
          | Raise f => Raise f
          | Done false => Done (false, VNil)
          | Done true =>
          match mapEntries (Keys v) (Values v) 0 mapKeyType mapValueType with
          | Raise f => Raise f
          | Done es => Done (true, VMap mapType es)
          end end end
      | None => Done (true, VMap mapType [])
      end
  | _ => Raise ReflectWrongKind
  end.

(** The [switch] of [setValue], [self] being [setValue] for the call in its
    last case.  [value] is the [interface{}] or the [reflect.Value] passed;
    the result is what the function returns together with the struct,
    updated. *)
Definition setValueWith
    (self : Inst -> StructField -> Value -> Try (bool * Inst))
    (into : Inst) (fd : StructField) (value : Value) : Try (bool * Inst) :=
  let fdT := Type_ fd in
  match typeOf value with
  | None =>
      (* rv is the zero Value; rv.Type() of the second case panics *)
      if bool_decide (kindOf fdT = KPointer) then Done (true, into)
      else Raise ReflectZeroValue
  | Some rvT =>
      let second :=
        if negb (bool_decide (kindOf fdT = KPointer))
           && bool_decide (kindOf rvT = KPointer)
        then
          match value, elemOf rvT with
          | VPointer _ (Some target), Some e =>
              Done (if convertibleTo e fdT then Some target else None)
          | VPointer _ None, _ => Raise ReflectZeroValue
          | _, _ => Raise ReflectWrongKind
          end
        else Done None in
      match second with
      | Raise f => Raise f
      | Done (Some target) =>
          Done (true, setField into fd (VConvert target fdT))
      | Done None =>
      if convertibleTo rvT fdT
      then Done (true, setField into fd (VConvert value fdT))
      else if bool_decide (kindOf rvT = KSlice)
              && bool_decide (kindOf fdT = KSlice)
      then
        match value, elemOf fdT with
        | VSlice TInterface l, Some ft =>
            match allConvertible ReflectZeroValue l ft with
            | Raise f => Raise f
            | Done false => Done (false, into)
            | Done true =>
                Done (true,
                      setField into fd
                        (VSlice ft ((fun v => VConvert v ft) <$> l)))
            end
        | VSlice _ [], Some ft => Done (true, setField into fd (VSlice ft []))
        | _, _ => Raise ReflectWrongKind
        end
      else if bool_decide (kindOf fdT = KBool)
              && (bool_decide (kindOf rvT = KUint64)
                  || bool_decide (kindOf rvT = KInt64))
      then
        Done (true,
              setField into fd (VBool (bool_decide (kindOf rvT = KInt64))))
      else if bool_decide (kindOf rvT = KPointer)
              && bool_decide (kindOf fdT = KMap)
              && bool_decide (rvT = TPointer TMapValue)
      then
        let mv :=
          match value with
          | VPointer _ (Some (VMapValue ks vs)) => Some (mkMapValue ks vs)
          | _ => None
          end in
        match makeMap mv fdT with
        | Raise f => Raise f
        | Done (false, _) => Done (false, into)
        | Done (true, mi) => Done (true, setField into fd mi)
        end
      else
        match value with
        | VPointer (TStruct _) (Some target) =>
            if bool_decide (kindOf fdT = KStruct) then self into fd target
            else Done (false, into)
        | _ => Done (false, into)
        end
      end
  end.

(** [setValue].  Its last case passes [rv.Elem()], a struct and no pointer,
    so the call it makes never reaches that case again. *)
Definition setValue : Inst -> StructField -> Value -> Try (bool * Inst) :=
  setValueWith (setValueWith (fun into _ _ => Done (false, into))).

(** The locals of the binding loops of [decodeStructToConcrete]. *)
Record Binding := mkBinding
  { setInst : Inst; unknownFields : list UnknownField; maxI : Z }.

(** The branch of the first loop for a field that is a OneOf group; [None]
    when control falls out of the [if] to the append below it, [Some] on
    [continue]. *)
Definition bindOneOf (t : StructType) (f : structField.t) (v : Value)
    (into : Inst) : Try (option Inst) :=
  match v with
  | VPointer e oo =>
      if bool_decide (e = TOneOfValue) then
        match oo with
        | Some (VOneOfValue ooIndex val) =>
            if ooIndex =? -1 then Done (Some into)
            else
              match structField.OneOfIndexes f !! ooIndex with
              | None => Raise NilDereference      (* field.Type is nil *)
              | Some field =>
                  match elemOf (Type_ field), typeOf val with
                  | None, _ => Raise ReflectWrongKind
                  | Some _, None => Raise ReflectZeroValue
                  | Some fe, Some vt =>
                      if assignableTo vt fe then
                        let ptr := VPointer fe (Some val) in
                        match setValue into field ptr with
                        | Raise p => Raise p
                        | Done (false, _) => Done None
                        | Done (true, into) =>
                            match FieldByName t ("Has" ++ Name field) with
                            | Some hasF =>
                                if bool_decide (kindOf (Type_ hasF) = KBool)
                                then Done (Some (setField into hasF (VBool true)))
                                else Done (Some into)
                            | None => Done (Some into)
                            end
                        end
                      else Raise ReflectNotAssignable
                  end
              end
        | _ => Raise NilDereference               (* oo.Index on nil *)
        end
      else Done None
  | _ => Done None
  end.

(** [for i, f := range allFields { ... }], at index [i]. *)
Fixpoint bindFields (t : StructType) (str : encodedStruct) (i : nat)
    (fs : list structField.t) (b : Binding) : Try Binding :=
  match fs with
  | [] => Done b
  | f :: fs' =>
      let vLen := length (values str) in
      if (vLen <? i)%nat then Done b
      else
        match values str !! i with
        | None => Raise IndexOutOfRange
        | Some v =>
            let b := mkBinding (setInst b) (unknownFields b) (Z.of_nat i) in
            let bound :=
              if structField.OneOf f then bindOneOf t f v (setInst b)
              else
                match setValue (setInst b) (structField.Field f) v with
                | Raise p => Raise p
                | Done (true, into) => Done (Some into)
                | Done (false, _) => Done None
                end in
            match bound with
            | Raise p => Raise p
            | Done (Some into) =>
                bindFields t str (S i) fs'
                  (mkBinding into (unknownFields b) (maxI b))
            | Done None =>
                match types str !! i with
                | None => Raise IndexOutOfRange
                | Some ty =>
                    bindFields t str (S i) fs'
                      (mkBinding (setInst b)
                         (unknownFields b
                            ++ [mkUnknownField (Z.of_nat i) ty v])
                         (maxI b))
                end
            end
        end
  end.

(** [for i, v := range str.values[maxI+1:] { ... }], at index [i] of the
    slice [rest]. *)
Fixpoint bindRest (str : encodedStruct) (maxI : Z) (i : nat)
    (rest : list Value) (acc : list UnknownField) : Try (list UnknownField) :=
  match rest with
  | [] => Done acc
  | v :: rest' =>
      match types str !! i with
      | None => Raise IndexOutOfRange
      | Some t =>
          bindRest str maxI (S i) rest'
            (acc ++ [mkUnknownField (maxI + Z.of_nat i) t v])
      end
  end.

(** [decodeStructToConcrete] from [inst := reflect.New(t)] on. *)
Definition bindStruct (t : StructType) (allFields : list structField.t)
    (str : encodedStruct) : Try Value :=
  match bindFields t str 0 allFields (mkBinding ∅ [] 0) with
  | Raise p => Raise p
  | Done b =>
      let from := Z.to_nat (maxI b + 1) in
      if (length (values str) <? from)%nat then Raise SliceBoundsOutOfRange
      else
        match
          bindRest str (maxI b) 0 (drop from (values str)) (unknownFields b)
        with
        | Raise p => Raise p
        | Done unknownFields =>
            match FieldByName t "Structure" with
            | None => Raise NilDereference
            | Some sf =>
                if assignableTo (TPointer TStructure) (Type_ sf) then
                  let inst :=
                    setField (setInst b) sf
                      (VPointer TStructure
                         (Some (VStructure unknownFields))) in
                  Done (VPointer (TStruct (TypeName t))
                          (Some (VStruct (TypeName t) inst)))
                else Raise ReflectNotAssignable
            end
        end
  end.

(** ** The registry and [Decode] *)

(** What the deferred function of [Decode] does to a panic of the body: the
    named results are still [(Invalid, nil)], and [err] is set. *)
Definition recover (m : M (Ty.t * Value)) : M (Ty.t * Value) :=
  fun r =>
    match m r with
    | (Panic f, r') => (Ret (Ty.Invalid, VNil) (Some (ErrRecovered f)), r')
    | res => res
    end.

Section Decoder.

(** The package variable [registry], as the registrations have left it. *)
Variable registry : gmap Z StructType.

Section Body.

Variable Decode : M (Ty.t * Value).
Variable loops : nat.

Definition decodeStructToConcrete (b : Z) : M Value :=
  let* (str, err) := decodeStruct Decode loops b in
  match err with
  | Some e => ret VNil (Some e)
  | None =>
      match str with
      | None => fun r => (Panic NilDereference, r)
      | Some str =>
          match registry !! id str with
          | None =>
              ret (ofEncodedStruct (Some str)) (Some ErrUnknownStructType)
          | Some t =>
              match validateAndExtractStruct t with
              | inl e => ret VNil (Some e)
              | inr allFields =>
                  match bindStruct t allFields str with
                  | Raise p => fun r => (Panic p, r)
                  | Done inst => ret inst None
                  end
              end
          end
      end
  end.

(** The body of [Decode], under its [defer]. *)
Definition DecodeBody : M (Ty.t * Value) :=
  let* (header, err) := Read1 in
  match err with
  | Some e => ret (Ty.Invalid, VNil) (Some e)
  | None =>
      match detectType header with
      | Ty.Void => ret (Ty.Void, VNil) None
      | Ty.Scalar =>
          let* (sv, err) := decodeScalar header in
          match err with
          | Some e => ret (Ty.Scalar, VNil) (Some e)
          | None =>
              if sv.1 then ret (Ty.Scalar, VInt64 (int64_of_u64 sv.2)) None
              else ret (Ty.Scalar, VUint64 sv.2) None
          end
      | Ty.Float =>
          let* (bv, err) := decodeFloat header in
          match err with
          | Some e => ret (Ty.Float, VNil) (Some e)
          | None =>
              if bv.1 =? 32 then ret (Ty.Float, VFloat32 bv.2) None
              else ret (Ty.Float, VFloat64 bv.2) None
          end
      | Ty.Array =>
          let* (arr, err) := decodeArray Decode loops header in
          ret (Ty.Array, VSlice TInterface arr) err
      | Ty.String =>
          let* (str, err) := decodeString header in
          ret (Ty.String, VString str) err
      | Ty.Struct =>
          let* (str, err) := decodeStructToConcrete header in
          ret (Ty.Struct, str) err
      | Ty.Map =>
          let* (m, err) := decodeMap Decode loops header in
          ret (Ty.Map, ofMapValue m) err
      | Ty.OneOf =>
          let* (oo, err) := decodeOneOf Decode header in
          ret (Ty.OneOf, ofOneOfValue oo) err
      | Ty.Invalid => ret (Ty.Invalid, VNil) (Some ErrInvalidType)
      end
  end.

End Body.

(** [Decode], with [fuel] bounding both the depth of the calls of [Decode]
    from inside [Decode] and the rounds of each loop.  A reader with [n]
    bytes left needs no more than [n + 1], see [Decode_enough_fuel]. *)
Fixpoint Decode (fuel : nat) : M (Ty.t * Value) :=
  match fuel with
  | O => fun r => (OutOfFuel, r)
  | S n => recover (DecodeBody (Decode n) n)
  end.

(** [Decode(bytes.NewReader(B))] *)
Definition DecodeBytes (B : list Z) : Res (Ty.t * Value) * Reader :=
  Decode (S (length B)) (bytesReader B).

End Decoder.

(** * The vocabulary of the properties *)

(** What [Decode] makes of a scalar read as [(signed, value)]. *)
Definition scalarValue (signed : bool) (value : Z) : Value :=
  if signed then VInt64 (int64_of_u64 value) else VUint64 value.

(** A registered struct with the embedded [*Structure] and one field,
    [Name string `index:"0"`]. *)
Definition oneFieldStruct : StructType :=
  mkStructType "T" true
    [mkStructField "Structure" (TPointer TStructure) None;
     mkStructField "Name" TString (Some "0"%string)].

Definition oneFieldRegistry : gmap Z StructType := {[ 1 := oneFieldStruct ]}.

(** A struct of type id 1 carrying the string ["a"] at index 0 and the
    unsigned 5 at index 1. *)
Definition twoValuesOnWire : list Z :=
  [0x81; 0x18; 1; 0; 0; 0; 0; 0; 0; 0; 0xA2; 0x61; 0x21; 0x0A].

(** [decodeScalar(buf[0], bytes.NewReader(buf[1:]))], as the tests of the
    repository call it. *)
Definition decodeEncoded (buffer : list Z) : Res (bool * Z) * Reader :=
  match buffer with
  | [] => (Panic IndexOutOfRange, bytesReader [])
  | header :: rest => decodeScalar header (bytesReader rest)
  end.

(** The taxonomy of section 7 of the specification, among the errors of the
    package. *)
Definition inSection7 (e : Error) : bool :=
  match e with
  | ErrCorruptStream | ErrSizeTooLarge | ErrInvalidType
  | ErrNonHomogeneousArray | ErrNonHomogeneousMapKey
  | ErrNonHomogeneousMapValue | ErrUnevenMap
  | ErrIncompatibleStruct | ErrIncompleteStruct
  | ErrInvalidTag | ErrDuplicatedFieldIndex | ErrMinFieldNotZero | ErrFieldGap
  | ErrUnknownStructType | ErrWantsStreamed | ErrServerClosed => true
  | EOF | ErrUnexpectedEOF | ErrOneOfNotPointer | ErrRecovered _ => false
  end.

(** The errors [Decode] can return: those of the [io] package that end a
    read, those of the decoders, those of the field plan of a registered
    struct, and the one made from a recovered panic. *)
Definition decodeError (e : Error) : bool :=
  match e with
  | EOF | ErrUnexpectedEOF
  | ErrSizeTooLarge | ErrInvalidType
  | ErrNonHomogeneousMapKey | ErrNonHomogeneousMapValue | ErrUnevenMap
  | ErrUnknownStructType
  | ErrIncompatibleStruct | ErrIncompleteStruct | ErrInvalidTag
  | ErrDuplicatedFieldIndex | ErrMinFieldNotZero | ErrFieldGap
  | ErrOneOfNotPointer
  | ErrRecovered _ => true
  | ErrCorruptStream | ErrNonHomogeneousArray
  | ErrWantsStreamed | ErrServerClosed => false
  end.

Definition allowed (err : option Error) : Prop :=
  match err with
  | None => True
  | Some e => decodeError e = true
  end.

(** [sat m r Q]: run on [r], the computation [m] does not run out of fuel;
    it leaves no more bytes than it found; and if it returns, it is with an
    error among [decodeError] and a result in [Q]. *)
Definition sat {A} (m : M A) (r : Reader)
    (Q : A -> option Error -> Reader -> Prop) : Prop :=
  match m r with
  | (Ret a err, r') =>
      (length (buf r') <= length (buf r))%nat /\ allowed err /\ Q a err r'
  | (Panic _, r') => (length (buf r') <= length (buf r))%nat
  | (OutOfFuel, _) => False
  end.

Definition anyResult {A} : A -> option Error -> Reader -> Prop :=
  fun _ _ _ => True.

(** [Decode] has returned: no panic is left unwinding and the fuel has
    sufficed; the error, if any, is among [decodeError]; no byte has been
    given back, and a success has consumed at least one. *)
Definition returned (res : Res (Ty.t * Value) * Reader) (r : Reader) : Prop :=
  match res with
  | (Ret _ err, r') =>
      (length (buf r') <= length (buf r))%nat
      /\ allowed err
      /\ (err = None -> (length (buf r') < length (buf r))%nat)
  | _ => False
  end.

(** What has been written so far decodes back: either nothing has been
    written and [v] is still the value to encode, or the bytes after [pos]
    take the decoder from [v] to [v0]. *)
Definition written (v0 v : Z) (pos : nat) (data : list Z) : Prop :=
  (pos = 15%nat /\ v = v0)
  \/ ((pos < 15)%nat /\ v < 2 ^ 57
      /\ scalarLoop v [] (drop (S pos) data) = (Ret v0 None, bytesReader [])).

(** [m2] agrees with [m1] wherever [m1] has not run out of fuel. *)
Definition refines {A} (m1 m2 : M A) : Prop :=
  forall r, (m1 r).1 <> OutOfFuel -> m2 r = m1 r.

(** * Properties *)

(** ** The type table *)

(** The top three bits of a byte always name a type: [Invalid] is not among
    the results of [detectType], and the last case of the [switch] of
    [Decode] is not taken. *)
Lemma detectType_byte (b : Z) :
  0 <= b < 256 -> detectType b <> Ty.Invalid.
Proof.
  intros Hb. unfold detectType.
  rewrite Z.shiftr_div_pow2 by lia. change (2 ^ 5) with 32.
  assert (Hq : 0 <= b / 32 <= 7)
    by (Z.to_euclidean_division_equations; lia).
  assert (Hc : b / 32 = 0 \/ b / 32 = 1 \/ b / 32 = 2 \/ b / 32 = 3
               \/ b / 32 = 4 \/ b / 32 = 5 \/ b / 32 = 6 \/ b / 32 = 7)
    by lia.
  destruct Hc as [-> | [-> | [-> | [-> | [-> | [-> | [-> | ->]]]]]]];
    vm_compute; discriminate.
Qed.

(** ** Reading one byte *)

Lemma Read1_cons (ls : list Z) (b : Z) (bs : list Z) :
  exhausted ls = false ->
  Read1 (mkReader ls (b :: bs)) = (Ret b None, mkReader (Z.pred <$> ls) bs).
Proof.
  intros Hex. unfold Read1, readByte. cbn [lims buf]. now rewrite Hex.
Qed.

(** One round of the loop of [decodeScalar] is one [reader.Read(b)]. *)
Lemma scalarLoop_step (value : Z) (r : Reader) :
  scalarLoop value (lims r) (buf r) =
  match readByte r with
  | None => (Ret (u64 (value ≪ 7)) (Some EOF), r)
  | Some (b, r') =>
      let value := Z.lor (u64 (value ≪ 7)) (b ≫ 1) in
      if negb (Z.land b 0x01 =? 0x01) then (Ret value None, r')
      else scalarLoop value (lims r') (buf r')
  end.
Proof.
  destruct r as [ls bs]. unfold readByte. cbn [lims buf].
  destruct bs as [|b bs]; cbn [scalarLoop];
    destruct (exhausted ls); reflexivity.
Qed.

(** ** Size zero (C10) *)

(** C10.  A declared body size of zero makes the array, map and OneOf decoders
    return nil and no error: whatever the header byte of that type, as soon
    as its size varint decodes to zero, [Decode] returns the nil slice with
    type [Array], the nil [*MapValue] with type [Map] and the nil
    [*OneOfValue] with type [OneOf].  The bytes [0x60], [0xC0] and [0xE0] are
    the one-byte instances. *)
Theorem C10_zero_size_is_nil (registry : gmap Z StructType) (n : nat)
    (header : Z) (ls bs : list Z) (s : bool) (r' : Reader) :
  exhausted ls = false ->
  decodeScalar header (mkReader (Z.pred <$> ls) bs) = (Ret (s, 0) None, r') ->
  (detectType header = Ty.Array ->
   Decode registry (S n) (mkReader ls (header :: bs))
   = (Ret (Ty.Array, VSlice TInterface []) None, r'))
  /\ (detectType header = Ty.Map ->
      Decode registry (S n) (mkReader ls (header :: bs))
      = (Ret (Ty.Map, ofMapValue None) None, r'))
  /\ (detectType header = Ty.OneOf ->
      Decode registry (S n) (mkReader ls (header :: bs))
      = (Ret (Ty.OneOf, ofOneOfValue None) None, r')).
Proof.
  intros Hex Hsc.
  split; [|split]; intros Hty; cbn [Decode];
    unfold recover, DecodeBody, bind at 1; rewrite (Read1_cons _ _ _ Hex);
    rewrite Hty.
  - unfold bind at 1, decodeArray, bind. rewrite Hsc. reflexivity.
  - unfold bind at 1, decodeMap, bind. rewrite Hsc. reflexivity.
  - unfold bind at 1, decodeOneOf, bind. rewrite Hsc. reflexivity.
Qed.

Lemma C10_zero_size_is_nil_witness :
  Decode ∅ 1 (bytesReader [0x60])
  = (Ret (Ty.Array, VSlice TInterface []) None, bytesReader [])
  /\ Decode ∅ 1 (bytesReader [0xC0])
     = (Ret (Ty.Map, VPointer TMapValue None) None, bytesReader [])
  /\ Decode ∅ 1 (bytesReader [0xE0])
     = (Ret (Ty.OneOf, VPointer TOneOfValue None) None, bytesReader []).
Proof.
  split; [|split].
  - apply (C10_zero_size_is_nil ∅ 0 0x60 [] [] false (bytesReader []));
      reflexivity.
  - apply (C10_zero_size_is_nil ∅ 0 0xC0 [] [] false (bytesReader []));
      reflexivity.
  - apply (C10_zero_size_is_nil ∅ 0 0xE0 [] [] false (bytesReader []));
      reflexivity.
Defined.

(** ** Booleans from scalars (C9) *)

(** C9.  Binding a decoded scalar to a field declared [bool] stores [true]
    when the scalar was signed and [false] when it was unsigned, whatever
    its magnitude, and reports the field as bound. *)
Theorem C9_bool_field_from_signedness (into : Inst) (name : string)
    (tag : option string) (signed : bool) (value : Z) :
  setValue into (mkStructField name TBool tag) (scalarValue signed value)
  = Done (true, <[name := VBool signed]> into).
Proof.
  destruct signed; reflexivity.
Qed.

(** ** The string decoder and a failing size prefix (C7) *)

(** C7, on the code: the stream ends after the header [0xA1], whose
    continuation bit is set; [decodeScalar] fails with [io.EOF], and
    [decodeString] returns the empty string and no error. *)
Theorem C7_decodeString_swallows_error :
  decodeScalar 0xA1 (bytesReader [])
  = (Ret (false, 0) (Some EOF), bytesReader [])
  /\ decodeString 0xA1 (bytesReader []) = (Ret [] None, bytesReader []).
Proof.
  split; reflexivity.
Qed.

(** The same for every failure of the size prefix. *)
Lemma decodeString_swallows (header : Z) (r r' : Reader) (sv : bool * Z)
    (e : Error) :
  decodeScalar header r = (Ret sv (Some e), r') ->
  decodeString header r = (Ret [] None, r').
Proof.
  intros H. unfold decodeString, bind. now rewrite H.
Qed.

Lemma Decode_scalar (registry : gmap Z StructType) (n : nat) (header : Z)
    (ls bs : list Z) (signed : bool) (value : Z) (r' : Reader) :
  exhausted ls = false ->
  detectType header = Ty.Scalar ->
  decodeScalar header (mkReader (Z.pred <$> ls) bs)
  = (Ret (signed, value) None, r') ->
  Decode registry (S n) (mkReader ls (header :: bs))
  = (Ret (Ty.Scalar, scalarValue signed value) None, r').
Proof.
  intros Hex Hty Hsc. cbn [Decode].
  unfold recover, DecodeBody, bind at 1. rewrite (Read1_cons _ _ _ Hex), Hty.
  unfold bind. rewrite Hsc. now destruct signed.
Qed.

(** ** Maps: keys and values in equal number (C8) *)

Section MapCardinality.

Variable Decode : M (Ty.t * Value).
Variable loops : nat.

Lemma decodeMapBody_uneven (size : Z) (r r' : Reader)
    (keys vals : list Value) :
  decodeMapBlocks Decode loops size r = (Ret (keys, vals) None, r') ->
  length keys <> length vals ->
  decodeMapBody Decode loops size r = (Ret None (Some ErrUnevenMap), r').
Proof.
  intros Hb Hne. unfold decodeMapBody, bind. rewrite Hb. cbn [fst snd].
  destruct (Nat.eqb_spec (length keys) (length vals)); [contradiction|].
  reflexivity.
Qed.

Lemma decodeMapBody_even (size : Z) (r r' : Reader) (mv : MapValue)
    (err : option Error) :
  decodeMapBody Decode loops size r = (Ret (Some mv) err, r') ->
  err = None /\ length (Keys mv) = length (Values mv).
Proof.
  unfold decodeMapBody, bind.
  destruct (decodeMapBlocks Decode loops size r) as [[[ks vs] [e|]| |] r1];
    try discriminate.
  cbn [fst snd].
  destruct (Nat.eqb_spec (length ks) (length vs)); cbn [negb];
    intros H; inversion H; subst; auto.
Qed.

Lemma decodeMap_guarded (header : Z) (r r1 : Reader) (s : bool) (size : Z) :
  decodeScalar header r = (Ret (s, size) None, r1) ->
  size <> 0 -> size < sizeLimit ->
  decodeMap Decode loops header r = decodeMapBody Decode loops size r1.
Proof.
  intros Hsc Hz Hlt. unfold decodeMap, bind. rewrite Hsc. cbn [fst snd].
  destruct (Z.eqb_spec size 0); [contradiction|].
  destruct (Z.leb_spec sizeLimit size); [lia|reflexivity].
Qed.

Lemma decodeMap_some (header : Z) (r r' : Reader) (mv : MapValue)
    (err : option Error) :
  decodeMap Decode loops header r = (Ret (Some mv) err, r') ->
  err = None /\ length (Keys mv) = length (Values mv).
Proof.
  unfold decodeMap, bind.
  destruct (decodeScalar header r) as [[[s size] [e|]| |] r1];
    try discriminate.
  cbn [fst snd].
  destruct (size =? 0); [discriminate|].
  destruct (sizeLimit <=? size); [discriminate|].
  apply decodeMapBody_even.
Qed.

End MapCardinality.

(** C8.  [decodeMap] fails with "uneven map values" whenever its two loops
    end with lists of keys and of values of different lengths, and a
    [MapValue] it returns has as many keys as values (and comes with no
    error). *)
Theorem C8_map_cardinality (Decode : M (Ty.t * Value)) (loops : nat)
    (header : Z) (r : Reader) :
  (forall s size r1 keys vals r2,
      decodeScalar header r = (Ret (s, size) None, r1) ->
      size <> 0 -> size < sizeLimit ->
      decodeMapBlocks Decode loops size r1 = (Ret (keys, vals) None, r2) ->
      length keys <> length vals ->
      decodeMap Decode loops header r = (Ret None (Some ErrUnevenMap), r2))
  /\ (forall mv err r',
         decodeMap Decode loops header r = (Ret (Some mv) err, r') ->
         err = None /\ length (Keys mv) = length (Values mv)).
Proof.
  split.
  - intros s size r1 keys vals r2 Hsc Hz Hlt Hb Hne.
    rewrite (decodeMap_guarded _ _ _ _ _ _ _ Hsc Hz Hlt).
    now apply decodeMapBody_uneven with (keys := keys) (vals := vals).
  - intros mv err r'. apply decodeMap_some.
Qed.

(** Two keys, [1] and [2], and the single value [1]: uneven; one key and one
    value: a [MapValue] with both. *)
Lemma C8_map_cardinality_witness :
  decodeMap (Decode ∅ 4) 4 0xC1
    (bytesReader [0x0A; 0x24; 0x22; 0x24; 0x22; 0x22])
  = (Ret None (Some ErrUnevenMap), bytesReader [])
  /\ (None = None :> option Error
      /\ length (Keys (mkMapValue [VUint64 1] [VUint64 1]))
         = length (Values (mkMapValue [VUint64 1] [VUint64 1]))).
Proof.
  split.
  - apply (proj1 (C8_map_cardinality (Decode ∅ 4) 4 0xC1
             (bytesReader [0x0A; 0x24; 0x22; 0x24; 0x22; 0x22])))
      with (s := false) (size := 5) (r1 := bytesReader [0x24; 0x22; 0x24; 0x22; 0x22])
           (keys := [VUint64 1; VUint64 2]) (vals := [VUint64 1]).
    + reflexivity.
    + lia.
    + reflexivity.
    + vm_compute. reflexivity.
    + simpl. lia.
  - apply (proj2 (C8_map_cardinality (Decode ∅ 4) 4 0xC1
             (bytesReader [0x08; 0x22; 0x22; 0x22; 0x22])))
      with (r' := bytesReader []).
    vm_compute. reflexivity.
Defined.

(** ** Maps and the outer window (C6) *)

(** C6, on the code: the header [0xC4] declares a body of two bytes, and six
    follow: the length of the keys, the keys [1] and [2], the length of the
    values, the values [1] and [2].  Only the two length bytes are read
    through the outer window; [decodeMap] returns the map and has consumed
    all six bytes. *)
Theorem C6_map_reads_past_outer_window :
  decodeScalar 0xC4 (bytesReader [0x24; 0x22; 0x24; 0x24; 0x22; 0x24])
  = (Ret (false, 2) None, bytesReader [0x24; 0x22; 0x24; 0x24; 0x22; 0x24])
  /\ decodeMap (Decode ∅ 7) 7 0xC4
       (bytesReader [0x24; 0x22; 0x24; 0x24; 0x22; 0x24])
     = (Ret (Some (mkMapValue [VUint64 1; VUint64 2] [VUint64 1; VUint64 2]))
          None,
        bytesReader []).
Proof.
  split; vm_compute; reflexivity.
Qed.

(** The sibling decoder of arrays keeps to its window: with the same
    declared size of two bytes it stops after two. *)
Example decodeArray_stays_in_window :
  decodeArray (Decode ∅ 7) 7 0x64
    (bytesReader [0x24; 0x22; 0x24; 0x24; 0x22; 0x24])
  = (Ret [VUint64 2; VUint64 1] None, bytesReader [0x24; 0x24; 0x22; 0x24]).
Proof. vm_compute. reflexivity. Qed.

(** ** Unknown fields of a struct (C5) *)

(** C5, on the code: the value at index 1 has no field to bind to.  It is
    appended to [UnknownFields] with its data, but with [Index] 0 and type
    [String], which are the index and the type of the value before it: the
    last loop of [decodeStructToConcrete] reads [str.types[i]] and
    [maxI + i] where [i] counts from [maxI + 1]. *)
Theorem C5_unknown_field_loses_its_type :
  DecodeBytes oneFieldRegistry twoValuesOnWire
  = (Ret
       (Ty.Struct,
        VPointer (TStruct "T")
          (Some
             (VStruct "T"
                (<["Structure"%string :=
                     VPointer TStructure
                       (Some
                          (VStructure
                             [mkUnknownField 0 Ty.String (VUint64 5)]))]>
                   (<["Name"%string := VConvert (VString [0x61]) TString]>
                      ∅)))))
       None,
     bytesReader [])
  /\ decodeStruct (Decode oneFieldRegistry 14) 14 0x81
       (bytesReader (tail twoValuesOnWire))
     = (Ret
          (Some
             (mkEncodedStruct 1 [VString [0x61]; VUint64 5]
                [Ty.String; Ty.Scalar]))
          None,
        bytesReader []).
Proof.
  split; vm_compute; reflexivity.
Qed.

(** Fewer values than declared fields: the first loop indexes past the end
    of [str.values], and the panic comes back as an error. *)
Example struct_with_missing_value :
  DecodeBytes oneFieldRegistry [0x81; 0x10; 1; 0; 0; 0; 0; 0; 0; 0]
  = (Ret (Ty.Invalid, VNil) (Some (ErrRecovered IndexOutOfRange)),
     bytesReader []).
Proof. vm_compute. reflexivity. Qed.

(** ** The size guard (C4) *)

(** C4.  Once the size prefix has been read as [size]: with
    [size = 2*10^9 - 1] each of the five container decoders goes on to its
    body (and the string decoder, whose body cannot fail, returns a string);
    with [size >= 2*10^9] each returns its nil value and [ErrSizeTooLarge],
    having read nothing past the prefix. *)
Theorem C4_size_guard (registry : gmap Z StructType)
    (Decode : M (Ty.t * Value)) (loops : nat) (header : Z) (r r1 : Reader)
    (s : bool) (size : Z) :
  decodeScalar header r = (Ret (s, size) None, r1) ->
  (size = 2 * 10 ^ 9 - 1 ->
   decodeString header r = decodeStringBody size r1
   /\ (exists data r2, decodeString header r = (Ret data None, r2))
   /\ decodeArray Decode loops header r = decodeArrayBody Decode loops size r1
   /\ decodeMap Decode loops header r = decodeMapBody Decode loops size r1
   /\ decodeOneOf Decode header r = decodeOneOfBody Decode size r1
   /\ decodeStruct Decode loops header r = decodeStructBody Decode loops size r1)
  /\ (2 * 10 ^ 9 <= size ->
      decodeString header r = (Ret [] (Some ErrSizeTooLarge), r1)
      /\ decodeArray Decode loops header r = (Ret [] (Some ErrSizeTooLarge), r1)
      /\ decodeMap Decode loops header r = (Ret None (Some ErrSizeTooLarge), r1)
      /\ decodeOneOf Decode header r = (Ret None (Some ErrSizeTooLarge), r1)
      /\ decodeStruct Decode loops header r
         = (Ret None (Some ErrSizeTooLarge), r1)
      /\ decodeStructToConcrete registry Decode loops header r
         = (Ret VNil (Some ErrSizeTooLarge), r1)).
Proof.
  intros Hsc. split.
  - intros ->.
    assert (Hs : decodeString header r
                 = decodeStringBody (2 * 10 ^ 9 - 1) r1).
    { unfold decodeString, bind at 1. rewrite Hsc. reflexivity. }
    split; [exact Hs|]. split.
    { rewrite Hs. unfold decodeStringBody, bind, within, ReadAll.
      destruct (readRest _ _) as [got r2]. eauto. }
    repeat apply conj.
    + unfold decodeArray, bind at 1. rewrite Hsc. reflexivity.
    + unfold decodeMap, bind at 1. rewrite Hsc. reflexivity.
    + unfold decodeOneOf, bind at 1. rewrite Hsc. reflexivity.
    + unfold decodeStruct, bind at 1. rewrite Hsc. reflexivity.
  - intros Hge.
    assert (Hz : (size =? 0) = false) by (apply Z.eqb_neq; lia).
    assert (Hl : (sizeLimit <=? size) = true)
      by (apply Z.leb_le; unfold sizeLimit; lia).
    assert (Hst : decodeStruct Decode loops header r
                  = (Ret None (Some ErrSizeTooLarge), r1)).
    { unfold decodeStruct, bind at 1. rewrite Hsc. cbn [fst snd].
      now rewrite Hl. }
    repeat apply conj.
    + unfold decodeString, bind at 1. rewrite Hsc. cbn [fst snd].
      now rewrite Hl.
    + unfold decodeArray, bind at 1. rewrite Hsc. cbn [fst snd].
      now rewrite Hz, Hl.
    + unfold decodeMap, bind at 1. rewrite Hsc. cbn [fst snd].
      now rewrite Hz, Hl.
    + unfold decodeOneOf, bind at 1. rewrite Hsc. cbn [fst snd].
      now rewrite Hz, Hl.
    + exact Hst.
    + unfold decodeStructToConcrete, bind at 1. now rewrite Hst.
Qed.

(** The size prefixes [2*10^9 - 1] and [2*10^9], as [encodeInteger] writes
    them after a header with the continuation bit. *)
Lemma C4_size_guard_witness :
  (decodeString 0xA1 (bytesReader [15; 115; 173; 79; 254])
   = decodeStringBody (2 * 10 ^ 9 - 1) (bytesReader [])
   /\ (exists data r2,
          decodeString 0xA1 (bytesReader [15; 115; 173; 79; 254])
          = (Ret data None, r2))
   /\ decodeArray (Decode ∅ 0) 0 0xA1 (bytesReader [15; 115; 173; 79; 254])
      = decodeArrayBody (Decode ∅ 0) 0 (2 * 10 ^ 9 - 1) (bytesReader [])
   /\ decodeMap (Decode ∅ 0) 0 0xA1 (bytesReader [15; 115; 173; 79; 254])
      = decodeMapBody (Decode ∅ 0) 0 (2 * 10 ^ 9 - 1) (bytesReader [])
   /\ decodeOneOf (Decode ∅ 0) 0xA1 (bytesReader [15; 115; 173; 79; 254])
      = decodeOneOfBody (Decode ∅ 0) (2 * 10 ^ 9 - 1) (bytesReader [])
   /\ decodeStruct (Decode ∅ 0) 0 0xA1 (bytesReader [15; 115; 173; 79; 254])
      = decodeStructBody (Decode ∅ 0) 0 (2 * 10 ^ 9 - 1) (bytesReader []))
  /\ (decodeString 0xA1 (bytesReader [15; 115; 173; 81; 0])
      = (Ret [] (Some ErrSizeTooLarge), bytesReader [])
      /\ decodeArray (Decode ∅ 0) 0 0xA1 (bytesReader [15; 115; 173; 81; 0])
         = (Ret [] (Some ErrSizeTooLarge), bytesReader [])
      /\ decodeMap (Decode ∅ 0) 0 0xA1 (bytesReader [15; 115; 173; 81; 0])
         = (Ret None (Some ErrSizeTooLarge), bytesReader [])
      /\ decodeOneOf (Decode ∅ 0) 0xA1 (bytesReader [15; 115; 173; 81; 0])
         = (Ret None (Some ErrSizeTooLarge), bytesReader [])
      /\ decodeStruct (Decode ∅ 0) 0 0xA1 (bytesReader [15; 115; 173; 81; 0])
         = (Ret None (Some ErrSizeTooLarge), bytesReader [])
      /\ decodeStructToConcrete ∅ (Decode ∅ 0) 0 0xA1
           (bytesReader [15; 115; 173; 81; 0])
         = (Ret VNil (Some ErrSizeTooLarge), bytesReader [])).
Proof.
  split.
  - apply (proj1 (C4_size_guard ∅ (Decode ∅ 0) 0 0xA1
                    (bytesReader [15; 115; 173; 79; 254]) (bytesReader [])
                    false (2 * 10 ^ 9 - 1) eq_refl)).
    reflexivity.
  - apply (proj2 (C4_size_guard ∅ (Decode ∅ 0) 0 0xA1
                    (bytesReader [15; 115; 173; 81; 0]) (bytesReader [])
                    false (2 * 10 ^ 9) eq_refl)).
    lia.
Defined.

(** ** Short varints (C3) *)

(** The claim as stated fails at 4: the leading byte only carries the
    continuation bit and the payload follows in a second byte. *)
Lemma C3_four_takes_two_bytes :
  0 <= 4 <= 7
  /\ encodeUint 4 = [0x21; 0x08]
  /\ ~ (forall v, 0 <= v <= 7 -> exists b, encodeUint v = [b]).
Proof.
  split; [lia|]. split; [reflexivity|].
  intros H. destruct (H 4 ltac:(lia)) as [b Hb]. discriminate Hb.
Qed.

(** C3, amended.  The values 0 to 3 are encoded in the leading byte alone,
    with the value in bits 2-1; the values 4 to 7 take the leading byte and
    one continuation byte. *)
Theorem C3_small_varints (v : Z) :
  (0 <= v <= 3 ->
   encodeInteger v = [v ≪ 1] /\ encodeUint v = [Z.lor (v ≪ 1) 0x20])
  /\ (4 <= v <= 7 ->
      encodeInteger v = [0x01; v ≪ 1] /\ encodeUint v = [0x21; v ≪ 1]).
Proof.
  split; intros Hv.
  - assert (Hc : v = 0 \/ v = 1 \/ v = 2 \/ v = 3) by lia.
    destruct Hc as [-> | [-> | [-> | ->]]]; split; reflexivity.
  - assert (Hc : v = 4 \/ v = 5 \/ v = 6 \/ v = 7) by lia.
    destruct Hc as [-> | [-> | [-> | ->]]]; split; reflexivity.
Qed.

Lemma C3_small_varints_witness :
  (encodeInteger 3 = [3 ≪ 1] /\ encodeUint 3 = [Z.lor (3 ≪ 1) 0x20])
  /\ (encodeInteger 6 = [0x01; 6 ≪ 1] /\ encodeUint 6 = [0x21; 6 ≪ 1]).
Proof.
  split.
  - apply (proj1 (C3_small_varints 3)). lia.
  - apply (proj2 (C3_small_varints 6)). lia.
Defined.

(** ** Round trip of scalars (C1) *)

(** C1, on the code: [2^63] as a [uint64], and the least [int64], are both
    encoded as the header alone with payload zero, and decode to zero: the
    test [(value << 1) > 0x7] of [encodeInteger] is made on 64 bits, where
    the shift drops the top bit. *)
Theorem C1_roundtrip_fails_at_top_bit :
  encodeUint (2 ^ 63) = [0x20]
  /\ decodeEncoded (encodeUint (2 ^ 63)) = (Ret (false, 0) None, bytesReader [])
  /\ encodeInt (- 2 ^ 63) = [0x30]
  /\ decodeEncoded (encodeInt (- 2 ^ 63)) = (Ret (true, 0) None, bytesReader [])
  /\ DecodeBytes ∅ (encodeUint (2 ^ 63))
     = (Ret (Ty.Scalar, VUint64 0) None, bytesReader []).
Proof.
  repeat apply conj; vm_compute; reflexivity.
Qed.

(** The values the tests of the repository cover do come back. *)
Example roundtrip_1023 :
  decodeEncoded (encodeUint 1023) = (Ret (false, 1023) None, bytesReader []).
Proof. vm_compute. reflexivity. Qed.

Example roundtrip_minus_512 :
  decodeEncoded (encodeInt (-512))
  = (Ret (true, u64_of_int64 (-512)) None, bytesReader []).
Proof. vm_compute. reflexivity. Qed.

(** ** [Decode] returns, with a value or one of its errors (C2) *)

(** The claim as stated fails on a truncated varint: the header [0x21] asks
    for a continuation byte, the stream ends, and the error is [io.EOF],
    which is none of the kinds of section 7 (and not [ErrCorruptStream]). *)
Lemma C2_truncated_varint_is_EOF :
  DecodeBytes ∅ [0x21] = (Ret (Ty.Scalar, VNil) (Some EOF), bytesReader [])
  /\ inSection7 EOF = false
  /\ ~ (forall B, exists tv err r',
           DecodeBytes ∅ B = (Ret tv err, r')
           /\ match err with
              | None => True
              | Some e => inSection7 e = true
              end).
Proof.
  split; [reflexivity|]. split; [reflexivity|].
  intros H. destruct (H [0x21]) as (tv & err & r' & Heq & Herr).
  vm_compute in Heq. inversion Heq; subst. discriminate Herr.
Qed.

(** A string cut short is returned as if complete: ten bytes declared, one
    present. *)
Example truncated_string_is_accepted :
  DecodeBytes ∅ [0xA1; 0x14; 0x61]
  = (Ret (Ty.String, VString [0x61]) None, bytesReader []).
Proof. vm_compute. reflexivity. Qed.

Lemma sat_ret {A} (a : A) (err : option Error) (r : Reader)
    (Q : A -> option Error -> Reader -> Prop) :
  allowed err -> Q a err r -> sat (ret a err) r Q.
Proof. intros Ha HQ. unfold sat, ret. auto. Qed.

Lemma sat_panic {A} (f : Fault) (r : Reader)
    (Q : A -> option Error -> Reader -> Prop) :
  sat (fun r => (Panic f, r)) r Q.
Proof. unfold sat. auto. Qed.

Lemma sat_bind {A B} (m : M A) (k : A -> option Error -> M B) (r : Reader)
    (Q1 : A -> option Error -> Reader -> Prop)
    (Q2 : B -> option Error -> Reader -> Prop) :
  sat m r Q1 ->
  (forall a err r',
      (length (buf r') <= length (buf r))%nat -> allowed err -> Q1 a err r' ->
      sat (k a err) r'
        (fun b e r'' =>
           (length (buf r'') <= length (buf r))%nat -> Q2 b e r'')) ->
  sat (bind m k) r Q2.
Proof.
  unfold sat, bind. intros Hm Hk.
  destruct (m r) as [[a err| f |] r1]; [|assumption|contradiction].
  destruct Hm as (Hlen & Hal & HQ). specialize (Hk a err r1 Hlen Hal HQ).
  destruct (k a err r1) as [[b e| f |] r2]; [|lia|contradiction].
  destruct Hk as (Hlen2 & Hal2 & HQ2).
  assert (length (buf r2) <= length (buf r))%nat by lia. auto.
Qed.

Lemma sat_weaken {A} (m : M A) (r : Reader)
    (Q1 Q2 : A -> option Error -> Reader -> Prop) :
  sat m r Q1 ->
  (forall a err r',
      (length (buf r') <= length (buf r))%nat -> allowed err ->
      Q1 a err r' -> Q2 a err r') ->
  sat m r Q2.
Proof.
  unfold sat. intros Hm HQ.
  destruct (m r) as [[a err| f |] r1]; [|assumption|contradiction].
  destruct Hm as (Hlen & Hal & H1). auto.
Qed.

Lemma sat_within {A} (z : Z) (m : M A) (r : Reader)
    (Q : A -> option Error -> Reader -> Prop) :
  sat m (LimitReader r z) (fun a e r' => Q a e (unlimit r')) ->
  sat (within z m) r Q.
Proof.
  unfold sat, within. cbn [LimitReader buf].
  destruct (m _) as [[a err| f |] r1]; cbn [unlimit buf]; auto.
Qed.

(** *** The readers *)

Lemma readByte_shorter (r r' : Reader) (b : Z) :
  readByte r = Some (b, r') -> length (buf r) = S (length (buf r')).
Proof.
  unfold readByte. destruct (exhausted (lims r)); [discriminate|].
  destruct (buf r) as [|b0 bs] eqn:Hb; [discriminate|].
  intros H. inversion H; subst. reflexivity.
Qed.

Lemma sat_Read1 (r : Reader) :
  sat Read1 r
    (fun _ err r' =>
       err = None -> (length (buf r') < length (buf r))%nat).
Proof.
  unfold sat, Read1. destruct (readByte r) as [[b r']|] eqn:Hr.
  - apply readByte_shorter in Hr. cbn. repeat split; auto; lia.
  - cbn. repeat split; auto. discriminate.
Qed.

Lemma sat_ReadLimited (N : Z) (r : Reader) :
  sat (ReadLimited N) r
    (fun _ err r' =>
       err = None -> (length (buf r') < length (buf r))%nat).
Proof.
  unfold ReadLimited. destruct (N <=? 0).
  - apply sat_ret; [reflexivity|discriminate].
  - eapply sat_bind; [apply sat_Read1|].
    intros b err r' Hlen Hal Hlt. destruct err as [e|].
    + apply sat_ret; [assumption|]. discriminate.
    + apply sat_ret; [exact I|]. auto.
Qed.

Lemma readUpTo_shorter (n : nat) (ls bs : list Z) :
  (length (buf (readUpTo n ls bs).2) <= length bs)%nat.
Proof.
  revert ls bs. induction n as [|n IH]; intros ls bs; cbn [readUpTo].
  - cbn. lia.
  - destruct (exhausted ls); [cbn; lia|].
    destruct bs as [|b bs]; [cbn; lia|].
    specialize (IH (Z.pred <$> ls) bs).
    destruct (readUpTo n (Z.pred <$> ls) bs) as [got r']. cbn in *. lia.
Qed.

Lemma sat_ReadFull (n : nat) (r : Reader) :
  sat (ReadFull n) r (fun _ _ _ => True).
Proof.
  unfold sat, ReadFull.
  pose proof (readUpTo_shorter n (lims r) (buf r)) as Hlen.
  destruct (readUpTo n (lims r) (buf r)) as [got r']. cbn [snd] in Hlen.
  destruct (length got =? n)%nat; [|destruct (length got =? 0)%nat];
    repeat split; auto.
Qed.

Lemma readRest_shorter (ls bs : list Z) :
  (length (buf (readRest ls bs).2) <= length bs)%nat.
Proof.
  revert ls. induction bs as [|b bs IH]; intros ls; cbn [readRest].
  - destruct (exhausted ls); cbn; lia.
  - destruct (exhausted ls); [cbn; lia|].
    specialize (IH (Z.pred <$> ls)).
    destruct (readRest (Z.pred <$> ls) bs) as [got r']. cbn in *. lia.
Qed.

Lemma sat_ReadAll (r : Reader) :
  sat ReadAll r (fun _ err _ => err = None).
Proof.
  unfold sat, ReadAll.
  pose proof (readRest_shorter (lims r) (buf r)) as Hlen.
  destruct (readRest (lims r) (buf r)) as [got r']. cbn [snd] in Hlen.
  repeat split; auto.
Qed.

Lemma scalarLoop_sat (bs ls : list Z) (value : Z) :
  match scalarLoop value ls bs with
  | (Ret _ err, r') =>
      (length (buf r') <= length bs)%nat /\ (err = None \/ err = Some EOF)
  | _ => False
  end.
Proof.
  revert ls value. induction bs as [|b bs IH]; intros ls value;
    cbn [scalarLoop].
  - destruct (exhausted ls); cbn; auto.
  - destruct (exhausted ls); [cbn; auto|].
    destruct (negb (Z.land b 1 =? 1)); [cbn; auto|].
    specialize (IH (Z.pred <$> ls) (Z.lor (u64 (value ≪ 7)) (b ≫ 1))).
    destruct (scalarLoop _ _ bs) as [[v err| |] r']; try contradiction.
    cbn [length]. destruct IH; split; auto.
Qed.

Lemma sat_decodeScalar (header : Z) (r : Reader) :
  sat (decodeScalar header) r (fun _ err _ => err = None \/ err = Some EOF).
Proof.
  unfold decodeScalar.
  destruct (negb (Z.land header 1 =? 1)).
  - apply sat_ret; [exact I|auto].
  - unfold sat.
    pose proof (scalarLoop_sat (buf r) (lims r) (Z.land header 14 ≫ 1)) as H.
    destruct (scalarLoop _ (lims r) (buf r)) as [[v err| |] r'];
      try contradiction.
    destruct H as [Hlen Herr]. repeat split; auto.
    destruct Herr as [-> | ->]; reflexivity.
Qed.

Lemma sat_decodeFloat (header : Z) (r : Reader) :
  sat (decodeFloat header) r (fun _ _ _ => True).
Proof.
  unfold decodeFloat. destruct (Z.land header 8 =? 8).
  - apply sat_ret; exact I.
  - eapply sat_bind; [apply sat_ReadFull|].
    intros got err r' _ Hal _. destruct err; apply sat_ret; auto; exact I.
Qed.

Lemma sat_decodeString (header : Z) (r : Reader) :
  sat (decodeString header) r (fun _ _ _ => True).
Proof.
  unfold decodeString.
  eapply sat_bind; [apply sat_decodeScalar|].
  intros sv err r' _ Hal _. destruct err.
  - apply sat_ret; [exact I|auto].
  - destruct (sizeLimit <=? sv.2); [apply sat_ret; [reflexivity|auto]|].
    unfold decodeStringBody.
    eapply sat_bind with (Q1 := fun _ _ _ => True);
      [apply sat_within; eapply sat_weaken; [apply sat_ReadAll|auto]|].
    intros data err r'' _ Hal' _. destruct err; apply sat_ret; auto; exact I.
Qed.

(** *** The container decoders, over a [Decode] that returns *)

Lemma sat_any {A} (m : M A) (r : Reader)
    (Q : A -> option Error -> Reader -> Prop) :
  sat m r Q -> sat m r anyResult.
Proof. intros H. eapply sat_weaken; [exact H|]. intros. exact I. Qed.

Lemma sat_bind_any {A B} (m : M A) (k : A -> option Error -> M B)
    (r : Reader) (Q1 : A -> option Error -> Reader -> Prop) :
  sat m r Q1 ->
  (forall a err r',
      (length (buf r') <= length (buf r))%nat -> allowed err -> Q1 a err r' ->
      sat (k a err) r' anyResult) ->
  sat (bind m k) r anyResult.
Proof.
  intros Hm Hk. eapply sat_bind; [exact Hm|].
  intros a err r' Hlen Hal HQ. eapply sat_weaken; [apply (Hk a err r'); auto|].
  intros. exact I.
Qed.

Lemma sat_ret_any {A} (a : A) (err : option Error) (r : Reader) :
  allowed err -> sat (ret a err) r anyResult.
Proof. intros H. apply sat_ret; [exact H|exact I]. Qed.

Section ContainersReturn.

Variable Decode : M (Ty.t * Value).
Variable n : nat.

(** [Decode] returns on every reader with fewer than [n] bytes left, and
    a success has consumed at least one byte. *)
Hypothesis Decode_sat :
  forall r, (length (buf r) < n)%nat ->
    sat Decode r
      (fun _ err r' =>
         err = None -> (length (buf r') < length (buf r))%nat).

Lemma sat_elemInterface (v : Value) (r : Reader) :
  sat (elemInterface v) r
    (fun _ _ r' => length (buf r') = length (buf r)).
Proof.
  destruct v as [| | | | | | | | ? [?|] | | | | | | |];
    first [apply sat_panic | apply sat_ret; [exact I|reflexivity]].
Qed.

Lemma sat_arrayLoop (k : nat) :
  forall data r,
    (length (buf r) < k)%nat -> (length (buf r) < n)%nat ->
    sat (arrayLoop Decode k data) r anyResult.
Proof.
  induction k as [|k IH]; intros data r Hk Hn; [lia|].
  cbn [arrayLoop].
  eapply sat_bind_any; [apply (Decode_sat r Hn)|].
  intros tv err r1 Hlen Hal Hlt. destruct err as [e|].
  - destruct (decide (e = EOF)); apply sat_ret_any; [exact I|exact Hal].
  - specialize (Hlt eq_refl).
    eapply sat_bind_any.
    + destruct (decide (tv.1 = Ty.Struct));
        [apply sat_elemInterface|].
      apply sat_ret with (Q := fun _ _ r' => length (buf r') = length (buf r1));
        [exact I|reflexivity].
    + intros v e r2 _ _ Heq. cbn beta in Heq. apply IH; lia.
Qed.

Lemma sat_mapLoop (mixed : Error) (k : nat) :
  decodeError mixed = true ->
  forall keyType acc r,
    (length (buf r) < k)%nat -> (length (buf r) < n)%nat ->
    sat (mapLoop Decode mixed k keyType acc) r anyResult.
Proof.
  intros Hmixed.
  induction k as [|k IH]; intros keyType acc r Hk Hn; [lia|].
  cbn [mapLoop].
  eapply sat_bind_any; [apply (Decode_sat r Hn)|].
  intros tv err r1 Hlen Hal Hlt. destruct err as [e|].
  - destruct (decide (e = EOF)); apply sat_ret_any; [exact I|exact Hal].
  - specialize (Hlt eq_refl).
    destruct (decide (keyType = Ty.Invalid)); [apply IH; lia|].
    destruct (decide (keyType <> tv.1));
      [apply sat_ret_any; exact Hmixed|apply IH; lia].
Qed.

Lemma sat_structLoop (k : nat) :
  forall str r,
    (length (buf r) < k)%nat -> (length (buf r) < n)%nat ->
    sat (structLoop Decode k str) r anyResult.
Proof.
  induction k as [|k IH]; intros str r Hk Hn; [lia|].
  cbn [structLoop].
  eapply sat_bind_any; [apply (Decode_sat r Hn)|].
  intros tv err r1 Hlen Hal Hlt. destruct err as [e|].
  - destruct (decide (e = EOF)); apply sat_ret_any; [exact I|exact Hal].
  - specialize (Hlt eq_refl). apply IH; lia.
Qed.

Lemma sat_decodeArray (header : Z) (r : Reader) :
  (length (buf r) < n)%nat ->
  sat (decodeArray Decode n header) r anyResult.
Proof.
  intros Hn. unfold decodeArray.
  eapply sat_bind_any; [apply sat_decodeScalar|].
  intros sv err r1 Hlen Hal _. destruct err; [apply sat_ret_any; exact Hal|].
  destruct (sv.2 =? 0); [apply sat_ret_any; exact I|].
  destruct (sizeLimit <=? sv.2); [apply sat_ret_any; reflexivity|].
  unfold decodeArrayBody. apply sat_within.
  eapply sat_weaken; [apply sat_arrayLoop; cbn; lia|]. intros; exact I.
Qed.

Lemma sat_decodeMapBlocks (size : Z) (r : Reader) :
  (length (buf r) < n)%nat ->
  sat (decodeMapBlocks Decode n size) r anyResult.
Proof.
  intros Hn. unfold decodeMapBlocks.
  eapply sat_bind_any; [apply sat_ReadLimited|].
  intros bN err r1 Hl1 Hal _. destruct err; [apply sat_ret_any; exact Hal|].
  eapply sat_bind_any; [apply sat_decodeScalar|].
  intros kv err r2 Hl2 Hal2 _. destruct err; [apply sat_ret_any; exact Hal2|].
  eapply sat_bind_any with (Q1 := anyResult).
  { apply sat_within.
    eapply sat_weaken; [apply sat_mapLoop; [reflexivity|cbn; lia..]|].
    intros; exact I. }
  intros keys err r3 Hl3 Hal3 _. destruct err; [apply sat_ret_any; exact Hal3|].
  eapply sat_bind_any; [apply sat_ReadLimited|].
  intros bN' err r4 Hl4 Hal4 _. destruct err; [apply sat_ret_any; exact Hal4|].
  eapply sat_bind_any; [apply sat_decodeScalar|].
  intros vv err r5 Hl5 Hal5 _. destruct err; [apply sat_ret_any; exact Hal5|].
  eapply sat_bind_any with (Q1 := anyResult).
  { apply sat_within.
    eapply sat_weaken; [apply sat_mapLoop; [reflexivity|cbn; lia..]|].
    intros; exact I. }
  intros vals err r6 Hl6 Hal6 _. destruct err; apply sat_ret_any; auto.
Qed.

Lemma sat_decodeMap (header : Z) (r : Reader) :
  (length (buf r) < n)%nat ->
  sat (decodeMap Decode n header) r anyResult.
Proof.
  intros Hn. unfold decodeMap.
  eapply sat_bind_any; [apply sat_decodeScalar|].
  intros sv err r1 Hlen Hal _. destruct err; [apply sat_ret_any; exact Hal|].
  destruct (sv.2 =? 0); [apply sat_ret_any; exact I|].
  destruct (sizeLimit <=? sv.2); [apply sat_ret_any; reflexivity|].
  unfold decodeMapBody.
  eapply sat_bind_any; [apply sat_decodeMapBlocks; lia|].
  intros kv err r2 _ Hal2 _. destruct err; [apply sat_ret_any; exact Hal2|].
  destruct (negb _); apply sat_ret_any; [reflexivity|exact I].
Qed.

Lemma sat_decodeOneOf (header : Z) (r : Reader) :
  (length (buf r) < n)%nat ->
  sat (decodeOneOf Decode header) r anyResult.
Proof.
  intros Hn. unfold decodeOneOf.
  eapply sat_bind_any; [apply sat_decodeScalar|].
  intros sv err r1 Hlen Hal _. destruct err; [apply sat_ret_any; exact Hal|].
  destruct (sv.2 =? 0); [apply sat_ret_any; exact I|].
  destruct (sizeLimit <=? sv.2); [apply sat_ret_any; reflexivity|].
  unfold decodeOneOfBody. apply sat_within.
  eapply sat_weaken with (Q1 := anyResult); [|intros; exact I].
  eapply sat_bind_any; [apply sat_ReadFull|].
  intros h err r2 Hl2 Hal2 _. destruct err; [apply sat_ret_any; exact Hal2|].
  eapply sat_bind_any; [apply sat_decodeScalar|].
  intros iv err r3 Hl3 Hal3 _. destruct err; [apply sat_ret_any; exact Hal3|].
  eapply sat_bind_any; [apply Decode_sat; cbn in *; lia|].
  intros tv err r4 Hl4 Hal4 _. destruct err; apply sat_ret_any; auto.
Qed.

Lemma sat_decodeStruct (header : Z) (r : Reader) :
  (length (buf r) < n)%nat ->
  sat (decodeStruct Decode n header) r anyResult.
Proof.
  intros Hn. unfold decodeStruct.
  eapply sat_bind_any; [apply sat_decodeScalar|].
  intros sv err r1 Hlen Hal _. destruct err; [apply sat_ret_any; exact Hal|].
  destruct (sizeLimit <=? sv.2); [apply sat_ret_any; reflexivity|].
  unfold decodeStructBody. apply sat_within.
  eapply sat_weaken with (Q1 := anyResult); [|intros; exact I].
  eapply sat_bind_any; [apply sat_ReadFull|].
  intros idb err r2 Hl2 Hal2 _. destruct err; [apply sat_ret_any; exact Hal2|].
  apply sat_structLoop; cbn in *; lia.
Qed.

(** The errors of the field plan are among the errors of [Decode]. *)
Lemma validateField_error (f : StructField)
    (st : gmap Z structField.t * Z * Z) (e : Error) :
  validateField f st = inl e -> decodeError e = true.
Proof.
  unfold validateField. destruct st as [[fields minField] maxField].
  destruct (Tag f) as [tag|]; [|discriminate].
  repeat
    match goal with
    | |- context [match ?x with _ => _ end] =>
        match type of x with
        | bool => destruct x
        | option _ => destruct x
        | sum _ _ => destruct x
        end
    end;
    intros H; inversion H; reflexivity.
Qed.

Lemma validateFields_error (fs : list StructField) :
  forall st e, validateFields fs st = inl e -> decodeError e = true.
Proof.
  induction fs as [|f fs IH]; intros st e; cbn [validateFields];
    [discriminate|].
  destruct (validateField f st) as [e'|st'] eqn:Hf.
  - intros H. inversion H; subst. eapply validateField_error; eauto.
  - apply IH.
Qed.

Lemma validateAndExtractStruct_error (t : StructType) (e : Error) :
  validateAndExtractStruct t = inl e -> decodeError e = true.
Proof.
  unfold validateAndExtractStruct.
  destruct (negb (ImplementsValuer t));
    [intros H; inversion H; reflexivity|].
  destruct (FieldByName t "Structure");
    [|intros H; inversion H; reflexivity].
  destruct (validateFields _ _) as [e'|[[fields minField] maxField]] eqn:Hv.
  - intros H. inversion H; subst. eapply validateFields_error; eauto.
  - destruct (negb (minField =? 0));
      [intros H; inversion H; reflexivity|].
    destruct (mapM _ _); [discriminate|].
    intros H; inversion H; reflexivity.
Qed.

Variable registry : gmap Z StructType.

Lemma sat_decodeStructToConcrete (header : Z) (r : Reader) :
  (length (buf r) < n)%nat ->
  sat (decodeStructToConcrete registry Decode n header) r anyResult.
Proof.
  intros Hn. unfold decodeStructToConcrete.
  eapply sat_bind_any; [apply sat_decodeStruct; exact Hn|].
  intros str err r1 _ Hal _. destruct err; [apply sat_ret_any; exact Hal|].
  destruct str as [str|]; [|apply sat_panic].
  destruct (registry !! id str) as [t|]; [|apply sat_ret_any; reflexivity].
  destruct (validateAndExtractStruct t) as [e|allFields] eqn:Hv.
  - apply sat_ret_any. eapply validateAndExtractStruct_error; eauto.
  - destruct (bindStruct t allFields str);
      [apply sat_ret_any; exact I|apply sat_panic].
Qed.

(** The body of [Decode] on a reader with at most [n] bytes left. *)
Lemma sat_DecodeBody (r : Reader) :
  (length (buf r) <= n)%nat ->
  sat (DecodeBody registry Decode n) r
    (fun _ err r' =>
       err = None -> (length (buf r') < length (buf r))%nat).
Proof.
  intros Hn. unfold DecodeBody.
  eapply sat_bind; [apply sat_Read1|].
  intros header err r1 Hlen Hal Hlt. destruct err as [e|].
  { apply sat_ret; [exact Hal|]. discriminate. }
  specialize (Hlt eq_refl).
  assert (Hn1 : (length (buf r1) < n)%nat) by lia.
  eapply sat_weaken with (Q1 := anyResult);
    [|intros; cbn beta in *; lia].
  destruct (detectType header).
  - apply sat_ret_any; reflexivity.
  - apply sat_ret_any; exact I.
  - eapply sat_bind_any; [apply sat_decodeScalar|].
    intros sv err r2 _ Hal2 _.
    destruct err; [apply sat_ret_any; exact Hal2|].
    destruct sv.1; apply sat_ret_any; exact I.
  - eapply sat_bind_any; [apply sat_decodeFloat|].
    intros bv err r2 _ Hal2 _.
    destruct err; [apply sat_ret_any; exact Hal2|].
    destruct (bv.1 =? 32); apply sat_ret_any; exact I.
  - eapply sat_bind_any; [apply sat_decodeArray; exact Hn1|].
    intros a err r2 _ Hal2 _. apply sat_ret_any; exact Hal2.
  - eapply sat_bind_any; [apply sat_decodeStructToConcrete; exact Hn1|].
    intros a err r2 _ Hal2 _. apply sat_ret_any; exact Hal2.
  - eapply sat_bind_any; [apply sat_decodeString|].
    intros a err r2 _ Hal2 _. apply sat_ret_any; exact Hal2.
  - eapply sat_bind_any; [apply sat_decodeMap; exact Hn1|].
    intros a err r2 _ Hal2 _. apply sat_ret_any; exact Hal2.
  - eapply sat_bind_any; [apply sat_decodeOneOf; exact Hn1|].
    intros a err r2 _ Hal2 _. apply sat_ret_any; exact Hal2.
Qed.

End ContainersReturn.

(** *** [Decode] *)

Lemma returned_sat (m : M (Ty.t * Value)) (r : Reader) :
  returned (m r) r ->
  sat m r
    (fun _ err r' => err = None -> (length (buf r') < length (buf r))%nat).
Proof.
  unfold returned, sat. destruct (m r) as [[tv err| f |] r']; tauto.
Qed.

Lemma Decode_enough_fuel (registry : gmap Z StructType) (fuel : nat) :
  forall r, (length (buf r) < fuel)%nat ->
    returned (Decode registry fuel r) r.
Proof.
  induction fuel as [|n IH]; intros r Hlen; [lia|].
  cbn [Decode]. unfold recover.
  pose proof (sat_DecodeBody (Decode registry n) n
                (fun r' H => returned_sat _ r' (IH r' H)) registry r
                ltac:(lia)) as Hb.
  unfold sat in Hb. unfold returned.
  destruct (DecodeBody registry (Decode registry n) n r)
    as [[tv err| f |] r']; [exact Hb| |contradiction].
  split; [exact Hb|]. split; [reflexivity|discriminate].
Qed.

(** C2, amended.  For every registry and every byte sequence [B], [Decode]
    on [B] returns: a panic raised while decoding is caught and comes back
    as an error.  What is returned is a value with no error, or one of the
    errors of [decodeError]: [io.EOF] and [io.ErrUnexpectedEOF], size too
    large, invalid type, the two non-homogeneous map errors, uneven map,
    unknown struct type, the errors of a field plan, or the error made from
    the recovered panic. *)
Theorem C2_Decode_returns (registry : gmap Z StructType) (B : list Z) :
  exists t v err r',
    DecodeBytes registry B = (Ret (t, v) err, r')
    /\ match err with
       | None => True
       | Some e => decodeError e = true
       end.
Proof.
  pose proof (Decode_enough_fuel registry (S (length B)) (bytesReader B)
                ltac:(cbn; lia)) as H.
  unfold DecodeBytes, returned in *.
  destruct (Decode registry (S (length B)) (bytesReader B))
    as [[[t v] err| f |] r']; try contradiction.
  exists t, v, err, r'. split; [reflexivity|]. apply H.
Qed.

(** *** The encoder and the decoder agree below the top bit *)

Lemma land_shifted_low (a b n : Z) :
  0 <= n -> 0 <= b < 2 ^ n -> Z.land (a * 2 ^ n) b = 0.
Proof.
  intros Hn Hb. apply Z.bits_inj'. intros i Hi.
  rewrite Z.land_spec, Z.bits_0.
  destruct (Z.lt_ge_cases i n) as [Hlt|Hge].
  - rewrite Z.mul_pow2_bits_low by lia. reflexivity.
  - rewrite <- (Z.mod_small b (2 ^ n)) by lia.
    rewrite Z.mod_pow2_bits_high by lia. apply andb_false_r.
Qed.

Lemma lor_shifted_low (a b n : Z) :
  0 <= n -> 0 <= b < 2 ^ n -> Z.lor (a * 2 ^ n) b = a * 2 ^ n + b.
Proof.
  intros Hn Hb. symmetry. apply Z.add_nocarry_lor.
  now apply land_shifted_low.
Qed.

Lemma contByte_plain (v : Z) :
  0 <= v -> u8 (u8 (Z.land v 0x7F) ≪ 1) = 2 * (v mod 128).
Proof.
  intros Hv. change 0x7F with (Z.ones 7). rewrite Z.land_ones by lia.
  unfold u8. rewrite Z.shiftl_mul_pow2 by lia.
  change (2 ^ 7) with 128. change (2 ^ 8) with 256. change (2 ^ 1) with 2.
  pose proof (Z.mod_pos_bound v 128 ltac:(lia)).
  rewrite (Z.mod_small (v mod 128) 256) by lia.
  rewrite Z.mod_small by lia. lia.
Qed.

Lemma lor_one (x : Z) : Z.lor (2 * x) 1 = 2 * x + 1.
Proof.
  replace (2 * x) with (x * 2 ^ 1) by lia.
  apply lor_shifted_low; lia.
Qed.

Lemma shiftr_one_even (x : Z) : (2 * x) ≫ 1 = x.
Proof.
  rewrite Z.shiftr_div_pow2 by lia. change (2 ^ 1) with 2.
  Z.to_euclidean_division_equations. lia.
Qed.

Lemma shiftr_one_odd (x : Z) : (2 * x + 1) ≫ 1 = x.
Proof.
  rewrite Z.shiftr_div_pow2 by lia. change (2 ^ 1) with 2.
  Z.to_euclidean_division_equations. lia.
Qed.

Lemma land_one_even (x : Z) : Z.land (2 * x) 1 = 0.
Proof.
  change 1 with (Z.ones 1). rewrite Z.land_ones by lia. change (2 ^ 1) with 2.
  Z.to_euclidean_division_equations. lia.
Qed.

Lemma land_one_odd (x : Z) : Z.land (2 * x + 1) 1 = 1.
Proof.
  change 1 with (Z.ones 1) at 2. rewrite Z.land_ones by lia. change (2 ^ 1) with 2.
  Z.to_euclidean_division_equations. lia.
Qed.

Lemma rejoin (v : Z) :
  0 <= v < 2 ^ 64 -> Z.lor (u64 ((v ≫ 7) ≪ 7)) (v mod 128) = v.
Proof.
  intros Hv. rewrite Z.shiftr_div_pow2, Z.shiftl_mul_pow2 by lia.
  change (2 ^ 7) with 128.
  pose proof (Z.mod_pos_bound v 128 ltac:(lia)).
  assert (0 <= v / 128 * 128 <= v) by (Z.to_euclidean_division_equations; lia).
  unfold u64. rewrite Z.mod_small by lia.
  change 128 with (2 ^ 7) at 2. rewrite lor_shifted_low by (change (2^7) with 128; lia).
  change (2 ^ 7) with 128. Z.to_euclidean_division_equations. lia.
Qed.

Lemma scalarLoop_cons (v b : Z) (T : list Z) :
  scalarLoop v [] (b :: T) =
  if negb (Z.land b 0x01 =? 0x01)
  then (Ret (Z.lor (u64 (v ≪ 7)) (b ≫ 1)) None, bytesReader T)
  else scalarLoop (Z.lor (u64 (v ≪ 7)) (b ≫ 1)) [] T.
Proof. reflexivity. Qed.

Lemma shiftr7_bound (v : Z) : 0 <= v < 2 ^ 64 -> 0 <= v ≫ 7 < 2 ^ 57.
Proof.
  intros Hv. rewrite Z.shiftr_div_pow2 by lia.
  change (2 ^ 7) with 128. change (2 ^ 57) with 144115188075855872.
  change (2 ^ 64) with 18446744073709551616 in Hv.
  Z.to_euclidean_division_equations. lia.
Qed.

Lemma written_step (v0 v : Z) (pos : nat) (data : list Z) :
  0 <= v < 2 ^ 64 -> (1 <= pos <= 15)%nat -> length data = 16%nat ->
  written v0 v pos data ->
  let data1 := <[pos := u8 (u8 (Z.land v 0x7F) ≪ 1)]> data in
  let data2 :=
    if negb (Nat.eqb pos (maxLen - 1))
    then <[pos := Z.lor (data1 !!! pos) 0x1]> data1
    else data1 in
  length data2 = 16%nat /\ written v0 (v ≫ 7) (pos - 1) data2.
Proof.
  intros Hv Hpos Hlen Hw. cbn zeta.
  rewrite contByte_plain by lia.
  set (x := v mod 128).
  assert (Hx : 0 <= x < 128) by (apply Z.mod_pos_bound; lia).
  pose proof (shiftr7_bound v Hv) as Hs.
  assert (Hrej : Z.lor (u64 ((v ≫ 7) ≪ 7)) x = v) by (apply rejoin; exact Hv).
  destruct Hw as [[-> ->] | (Hlt & Hv57 & Hdec)].
  - cbn [Nat.eqb maxLen Nat.sub negb]. split; [now rewrite length_insert|].
    right. split; [lia|]. split; [lia|].
    change (S (15 - 1)) with 15%nat.
    rewrite (drop_S _ (2 * x) 15).
    2:{ apply list_lookup_insert_eq. lia. }
    rewrite drop_ge by (rewrite length_insert; lia).
    rewrite scalarLoop_cons, land_one_even, shiftr_one_even, Hrej.
    reflexivity.
  - replace (Nat.eqb pos (maxLen - 1)) with false
      by (symmetry; apply Nat.eqb_neq; cbn; lia).
    cbn [negb].
    rewrite list_lookup_total_insert_eq by lia.
    rewrite list_insert_insert_eq, lor_one.
    split; [now rewrite length_insert|].
    right. split; [lia|]. split; [lia|].
    replace (S (pos - 1)) with pos by lia.
    rewrite (drop_S _ (2 * x + 1) pos).
    2:{ apply list_lookup_insert_eq. lia. }
    rewrite drop_insert_lt by lia.
    rewrite scalarLoop_cons, land_one_odd, shiftr_one_odd, Hrej.
    cbn [Z.eqb negb]. exact Hdec.
Qed.

(** The loop, entered with [v < 128^m], fuel [m + 6] and [pos = m + 5]:
    it stops on its own test, at a position of the array, and what it has
    written decodes back. *)
Lemma encodeLoop_exit (v0 : Z) (m : nat) :
  forall v pos data,
    0 <= v < 2 ^ 64 -> v < 128 ^ Z.of_nat m -> pos = (m + 5)%nat ->
    (pos <= 15)%nat -> length data = 16%nat -> written v0 v pos data ->
    exists v' pos' data',
      encodeLoop (m + 6) v pos data = (v', pos', data')
      /\ 0 <= v' < 2 ^ 64 /\ (5 <= pos' <= 15)%nat /\ length data' = 16%nat
      /\ u64 (v' ≪ 1) <= 0x7
      /\ written v0 v' pos' data'.
Proof.
  induction m as [|m IH]; intros v pos data Hv Hm Hpos Hle Hlen Hw.
  - assert (v = 0) by (cbn in Hm; lia). subst v pos.
    exists 0, 5%nat, data.
    split; [reflexivity|]. split; [lia|]. split; [lia|].
    split; [exact Hlen|]. split; [discriminate|exact Hw].
  - change (S m + 6)%nat with (S (m + 6)). cbn [encodeLoop].
    destruct (Z.ltb_spec 0x7 (u64 (v ≪ 1))) as [Hgo|Hstop].
    + destruct (written_step v0 v pos data Hv ltac:(lia) Hlen Hw)
        as [Hlen' Hw'].
      apply IH; auto.
      * pose proof (shiftr7_bound v Hv). lia.
      * rewrite Z.shiftr_div_pow2 by lia. change (2 ^ 7) with 128.
        rewrite Nat2Z.inj_succ, Z.pow_succ_r in Hm by lia.
        apply Z.div_lt_upper_bound; lia.
      * lia.
      * lia.
    + exists v, pos, data.
      split; [reflexivity|]. split; [lia|]. split; [lia|].
      split; [exact Hlen|]. split; [lia|exact Hw].
Qed.

Lemma small_after_exit (v0 v : Z) (pos : nat) (data : list Z) :
  0 <= v0 < 2 ^ 64 -> v0 < 2 ^ 63 \/ 2 ^ 63 + 3 < v0 ->
  0 <= v < 2 ^ 64 -> u64 (v ≪ 1) <= 0x7 -> written v0 v pos data ->
  0 <= v <= 3.
Proof.
  intros Hv0 Hnot Hv Hexit Hw. unfold u64 in Hexit.
  rewrite Z.shiftl_mul_pow2 in Hexit by lia. change (2 ^ 1) with 2 in Hexit.
  change (2 ^ 64) with 18446744073709551616 in *.
  change (2 ^ 63) with 9223372036854775808 in *.
  destruct Hw as [[_ ->] | (_ & Hv57 & _)].
  - Z.to_euclidean_division_equations. lia.
  - change (2 ^ 57) with 144115188075855872 in Hv57.
    Z.to_euclidean_division_equations. lia.
Qed.

Lemma encodeInteger_roundtrip (tag v : Z) :
  0 <= v < 2 ^ 64 -> v < 2 ^ 63 \/ 2 ^ 63 + 3 < v ->
  tag = 0x20 \/ tag = 0x30 ->
  decodeEncoded (orHead tag (encodeInteger v))
  = (Ret (tag =? 0x30, v) None, bytesReader []).
Proof.
  intros Hv Hnot Htag. unfold encodeInteger.
  destruct (encodeLoop_exit v 10 v 15 (replicate 16 0)) as
    (v' & pos' & data' & Hloop & Hv' & Hpos' & Hlen' & Hexit & Hw);
    [exact Hv| change (128 ^ Z.of_nat 10) with (2 ^ 70); 
               change (2 ^ 64) with 18446744073709551616 in Hv;
               change (2 ^ 70) with 1180591620717411303424; lia
     |reflexivity|lia|reflexivity|left; auto|].
  change (encodeLoop maxLen v (maxLen - 1) (replicate maxLen 0))
    with (encodeLoop (10 + 6) v 15 (replicate 16 0)).
  rewrite Hloop. change (maxLen - 1)%nat with 15%nat.
  pose proof (small_after_exit v v' pos' data' Hv Hnot Hv' Hexit Hw) as Hsmall.
  set (h := Z.land (u8 (u64 (v' ≪ 1))) 0x7).
  destruct Hw as [[-> ->] | (Hlt & _ & Hdec)].
  - cbn [Nat.ltb Nat.leb].
    rewrite (drop_S _ h 15) by (apply list_lookup_insert_eq; lia).
    rewrite drop_ge by (rewrite length_insert; lia).
    subst h.
    assert (Hc : v = 0 \/ v = 1 \/ v = 2 \/ v = 3) by lia.
    destruct Htag as [-> | ->];
      destruct Hc as [-> | [-> | [-> | ->]]]; reflexivity.
  - replace (pos' <? 15)%nat with true by (symmetry; apply Nat.ltb_lt; lia).
    rewrite list_lookup_total_insert_eq by lia.
    rewrite list_insert_insert_eq.
    rewrite (drop_S _ (Z.lor h 1) pos') by (apply list_lookup_insert_eq; lia).
    rewrite drop_insert_lt by lia.
    subst h. unfold decodeEncoded, orHead, decodeScalar.
    assert (Hc : v' = 0 \/ v' = 1 \/ v' = 2 \/ v' = 3) by lia.
    destruct Htag as [-> | ->];
      destruct Hc as [-> | [-> | [-> | ->]]];
      (match goal with
       | |- context [negb ?c] =>
           let c' := eval vm_compute in c in change (negb c) with (negb c')
       end);
      cbn [negb]; cbv beta; cbn [bytesReader lims buf];
      (match goal with
       | |- context [scalarLoop ?a [] _] =>
           let a' := eval vm_compute in a in change a with a'
       end);
      rewrite Hdec; reflexivity.
Qed.

(** Every [uint64] other than [2^63 .. 2^63+3] comes back from
    [encodeUint]. *)
Lemma encodeUint_roundtrip (v : Z) :
  0 <= v < 2 ^ 64 -> v < 2 ^ 63 \/ 2 ^ 63 + 3 < v ->
  decodeEncoded (encodeUint v) = (Ret (false, v) None, bytesReader []).
Proof.
  intros Hv Hnot. apply (encodeInteger_roundtrip 0x20 v Hv Hnot). now left.
Qed.

(** Every [int64] other than the four least ones comes back from
    [encodeInt], as the [uint64] of the same bits. *)
Lemma encodeInt_roundtrip (v : Z) :
  - 2 ^ 63 + 3 < v < 2 ^ 63 ->
  decodeEncoded (encodeInt v) = (Ret (true, u64_of_int64 v) None, bytesReader [])
  /\ int64_of_u64 (u64_of_int64 v) = v.
Proof.
  intros Hv.
  change (2 ^ 63) with 9223372036854775808 in Hv.
  assert (Hu : 0 <= u64_of_int64 v < 2 ^ 64)
    by (apply Z.mod_pos_bound; lia).
  assert (Hcases : (0 <= v /\ u64_of_int64 v = v)
                   \/ (v < 0 /\ u64_of_int64 v = v + 2 ^ 64)).
  { unfold u64_of_int64. change (2 ^ 64) with 18446744073709551616.
    Z.to_euclidean_division_equations. lia. }
  split.
  - apply (encodeInteger_roundtrip 0x30 (u64_of_int64 v) Hu); [|now right].
    change (2 ^ 63) with 9223372036854775808.
    change (2 ^ 64) with 18446744073709551616 in Hcases. lia.
  - unfold int64_of_u64.
    change (2 ^ 63) with 9223372036854775808.
    change (2 ^ 64) with 18446744073709551616 in *.
    destruct (Z.ltb_spec (u64_of_int64 v) 9223372036854775808); lia.
Qed.

(** ** The fuel of [Decode] *)

Lemma refines_refl {A} (m : M A) : refines m m.
Proof. intros r _. reflexivity. Qed.

Lemma refines_bind {A B} (m1 m2 : M A) (k1 k2 : A -> option Error -> M B) :
  refines m1 m2 -> (forall a e, refines (k1 a e) (k2 a e)) ->
  refines (bind m1 k1) (bind m2 k2).
Proof.
  intros Hm Hk r. unfold bind. specialize (Hm r).
  destruct (m1 r) as [[a e| f |] r1] eqn:E1; cbn [fst] in *.
  - rewrite Hm by discriminate. apply Hk.
  - rewrite Hm by discriminate. reflexivity.
  - intros H. contradiction.
Qed.

Lemma refines_within {A} (z : Z) (m1 m2 : M A) :
  refines m1 m2 -> refines (within z m1) (within z m2).
Proof.
  intros Hm r. unfold within. specialize (Hm (LimitReader r z)).
  destruct (m1 (LimitReader r z)) as [res r1] eqn:E1. cbn [fst] in *.
  intros H. rewrite Hm by exact H. reflexivity.
Qed.

Lemma refines_recover (m1 m2 : M (Ty.t * Value)) :
  refines m1 m2 -> refines (recover m1) (recover m2).
Proof.
  intros Hm r. unfold recover. specialize (Hm r).
  destruct (m1 r) as [[a e| f |] r1] eqn:E1; cbn [fst] in *; intros H;
    [rewrite Hm by discriminate; reflexivity..|contradiction].
Qed.

Section FuelMonotone.

Variables D1 D2 : M (Ty.t * Value).
Hypothesis HD : refines D1 D2.

Lemma refines_arrayLoop (k1 : nat) :
  forall k2 data, (k1 <= k2)%nat ->
    refines (arrayLoop D1 k1 data) (arrayLoop D2 k2 data).
Proof.
  induction k1 as [|k1 IH]; intros k2 data Hle.
  - intros r H. cbn in H. contradiction.
  - destruct k2 as [|k2]; [lia|]. cbn [arrayLoop].
    apply refines_bind; [exact HD|]. intros tv [e|]; [apply refines_refl|].
    apply refines_bind; [apply refines_refl|]. intros v _. apply IH. lia.
Qed.

Lemma refines_mapLoop (mixed : Error) (k1 : nat) :
  forall k2 keyType acc, (k1 <= k2)%nat ->
    refines (mapLoop D1 mixed k1 keyType acc) (mapLoop D2 mixed k2 keyType acc).
Proof.
  induction k1 as [|k1 IH]; intros k2 keyType acc Hle.
  - intros r H. cbn in H. contradiction.
  - destruct k2 as [|k2]; [lia|]. cbn [mapLoop].
    apply refines_bind; [exact HD|]. intros tv [e|]; [apply refines_refl|].
    destruct (decide (keyType = Ty.Invalid)); [apply IH; lia|].
    destruct (decide (keyType <> tv.1)); [apply refines_refl|apply IH; lia].
Qed.

Lemma refines_structLoop (k1 : nat) :
  forall k2 str, (k1 <= k2)%nat ->
    refines (structLoop D1 k1 str) (structLoop D2 k2 str).
Proof.
  induction k1 as [|k1 IH]; intros k2 str Hle.
  - intros r H. cbn in H. contradiction.
  - destruct k2 as [|k2]; [lia|]. cbn [structLoop].
    apply refines_bind; [exact HD|]. intros tv [e|]; [apply refines_refl|].
    apply IH. lia.
Qed.

Variables n1 n2 : nat.
Hypothesis Hn : (n1 <= n2)%nat.

Lemma refines_decodeArray (header : Z) :
  refines (decodeArray D1 n1 header) (decodeArray D2 n2 header).
Proof.
  unfold decodeArray. apply refines_bind; [apply refines_refl|].
  intros sv [e|]; [apply refines_refl|].
  destruct (sv.2 =? 0); [apply refines_refl|].
  destruct (sizeLimit <=? sv.2); [apply refines_refl|].
  apply refines_within, refines_arrayLoop, Hn.
Qed.

Lemma refines_decodeMap (header : Z) :
  refines (decodeMap D1 n1 header) (decodeMap D2 n2 header).
Proof.
  unfold decodeMap. apply refines_bind; [apply refines_refl|].
  intros sv [e|]; [apply refines_refl|].
  destruct (sv.2 =? 0); [apply refines_refl|].
  destruct (sizeLimit <=? sv.2); [apply refines_refl|].
  unfold decodeMapBody. apply refines_bind; [|intros; apply refines_refl].
  unfold decodeMapBlocks.
  apply refines_bind; [apply refines_refl|].
  intros bN [e|]; [apply refines_refl|].
  apply refines_bind; [apply refines_refl|].
  intros kv [e|]; [apply refines_refl|].
  apply refines_bind; [apply refines_within, refines_mapLoop, Hn|].
  intros keys [e|]; [apply refines_refl|].
  apply refines_bind; [apply refines_refl|].
  intros bN' [e|]; [apply refines_refl|].
  apply refines_bind; [apply refines_refl|].
  intros vv [e|]; [apply refines_refl|].
  apply refines_bind; [apply refines_within, refines_mapLoop, Hn|].
  intros; apply refines_refl.
Qed.

Lemma refines_decodeOneOf (header : Z) :
  refines (decodeOneOf D1 header) (decodeOneOf D2 header).
Proof.
  unfold decodeOneOf. apply refines_bind; [apply refines_refl|].
  intros sv [e|]; [apply refines_refl|].
  destruct (sv.2 =? 0); [apply refines_refl|].
  destruct (sizeLimit <=? sv.2); [apply refines_refl|].
  apply refines_within.
  apply refines_bind; [apply refines_refl|].
  intros h [e|]; [apply refines_refl|].
  apply refines_bind; [apply refines_refl|].
  intros iv [e|]; [apply refines_refl|].
  apply refines_bind; [exact HD|]. intros; apply refines_refl.
Qed.

Lemma refines_decodeStruct (header : Z) :
  refines (decodeStruct D1 n1 header) (decodeStruct D2 n2 header).
Proof.
  unfold decodeStruct. apply refines_bind; [apply refines_refl|].
  intros sv [e|]; [apply refines_refl|].
  destruct (sizeLimit <=? sv.2); [apply refines_refl|].
  apply refines_within.
  apply refines_bind; [apply refines_refl|].
  intros idb [e|]; [apply refines_refl|].
  apply refines_structLoop, Hn.
Qed.

Variable registry : gmap Z StructType.

Lemma refines_DecodeBody :
  refines (DecodeBody registry D1 n1) (DecodeBody registry D2 n2).
Proof.
  unfold DecodeBody. apply refines_bind; [apply refines_refl|].
  intros header [e|]; [apply refines_refl|].
  destruct (detectType header); try apply refines_refl.
  - apply refines_bind; [apply refines_decodeArray|].
    intros; apply refines_refl.
  - apply refines_bind; [|intros; apply refines_refl].
    unfold decodeStructToConcrete.
    apply refines_bind; [apply refines_decodeStruct|].
    intros; apply refines_refl.
  - apply refines_bind; [apply refines_decodeMap|].
    intros; apply refines_refl.
  - apply refines_bind; [apply refines_decodeOneOf|].
    intros; apply refines_refl.
Qed.

End FuelMonotone.

Lemma Decode_fuel_step (registry : gmap Z StructType) (n : nat) :
  refines (Decode registry n) (Decode registry (S n)).
Proof.
  induction n as [|n IH].
  - intros r H. cbn in H. contradiction.
  - cbn [Decode]. apply refines_recover.
    apply refines_DecodeBody; [exact IH|lia].
Qed.

(** More fuel than the bytes left changes nothing. *)
Lemma Decode_fuel_irrelevant (registry : gmap Z StructType) (n m : nat)
    (r : Reader) :
  (length (buf r) < n)%nat -> (n <= m)%nat ->
  Decode registry m r = Decode registry n r.
Proof.
  intros Hlen Hle. induction Hle as [|m Hle IH]; [reflexivity|].
  rewrite <- IH. apply Decode_fuel_step. rewrite IH.
  pose proof (Decode_enough_fuel registry n r Hlen) as H.
  unfold returned in H.
  destruct (Decode registry n r) as [[tv e| f |] r']; cbn; try discriminate.
  contradiction.
Qed.
